(** * delta_at24: the I2C EEPROM driver of the Delta evs-a-32q56 platform

    A shallow embedding of
    [platform/innovium/sonic-platform-modules-delta/evs-a-32q56/modules/delta_at24.c]
    and the properties of its geometry decoder, address translator,
    transfer engine and range accessor.

    Conventions.  C integers are values of [Z]; every place where the C
    code narrows or wraps a value is written out with one of the casts
    [u8], [u16], [u32], [u64].  Stateful code runs in the monad [M] over
    the system state [Sys] (clock, device behind the bus, mutex, event
    log). *)

From Stdlib Require Import ZArith List Bool Lia String.
Import ListNotations.
Local Open Scope Z_scope.

(** ** Machine integers *)

Definition u8 (x : Z) : Z := x mod 2 ^ 8.
Definition u16 (x : Z) : Z := x mod 2 ^ 16.
Definition u32 (x : Z) : Z := x mod 2 ^ 32.
Definition u64 (x : Z) : Z := x mod 2 ^ 64.

(** [(char)x]: the platform is x86-64, where plain [char] is signed. *)
Definition s8 (x : Z) : Z := let y := u8 x in if y <? 128 then y else y - 256.

(** [(s32)x]: the return type of the SMBus primitives. *)
Definition s32 (x : Z) : Z :=
  let y := u32 x in if y <? 2 ^ 31 then y else y - 2 ^ 32.

(** Largest value of [loff_t] (a signed 64-bit integer). *)
Definition LOFF_MAX : Z := 2 ^ 63 - 1.

(** ** Kernel macros used by the driver

    [linux/bitops.h], [linux/kernel.h] and [linux/log2.h] are not part of
    the driver's file; the macros are transcribed with the operand types
    they get at their call sites in [delta_at24.c]. *)

Definition BIT (n : Z) : Z := Z.shiftl 1 n.

Definition ilog2 (n : Z) : Z := Z.log2 n.

(** [DIV_ROUND_UP(n, d)] is [((n) + (d) - 1) / (d)]; at its one call site
    [n] is the [u32] field [byte_len], so the sum is taken modulo 2^32. *)
Definition DIV_ROUND_UP (n d : Z) : Z := u32 (n + d - 1) / d.

(** [roundup(x, y)] is [(((x) + (y - 1)) / y) * y], on [unsigned]
    operands at its one call site. *)
Definition roundup (x y : Z) : Z := u32 (u32 (x + (y - 1)) / y * y).

(** [rounddown_pow_of_two(n)] is [1 << (fls(n) - 1)] for nonzero [n]. *)
Definition rounddown_pow_of_two (n : Z) : Z := Z.shiftl 1 (Z.log2 n).

Module Errno.
Definition ENOMEM : Z := 12.
Definition ENODEV : Z := 19.
Definition EINVAL : Z := 22.
Definition EFBIG : Z := 27.
Definition EPFNOSUPPORT : Z := 96.
Definition EADDRINUSE : Z := 98.
Definition ETIMEDOUT : Z := 110.
End Errno.
Import Errno.

(** ** Chip description ([struct at24_platform_data])

    The structure and the flag bits are declared in
    [linux/platform_data/at24.h]: [u32 byte_len; u16 page_size; u8 flags].
    The [setup] callback and its [context] are never called by this
    driver and are left out. *)

Record at24_platform_data : Type := mk_chip {
  byte_len : Z;   (* u32 *)
  page_size : Z;  (* u16 *)
  flags : Z       (* u8 *)
}.

Definition AT24_FLAG_ADDR16 : Z := 128.
Definition AT24_FLAG_READONLY : Z := 64.
Definition AT24_FLAG_IRUGO : Z := 32.
Definition AT24_FLAG_TAKE8ADDR : Z := 16.
Definition AT24_FLAG_SERIAL : Z := 8.
Definition AT24_FLAG_MAC : Z := 4.

(** [chip.flags & FLAG] used as a C condition. *)
Definition has_flag (c : at24_platform_data) (f : Z) : bool :=
  negb (Z.land (flags c) f =? 0).

(** A chip description whose fields fit their C types. *)
Definition chip_wf (c : at24_platform_data) : Prop :=
  0 <= byte_len c < 2 ^ 32 /\ 0 <= page_size c < 2 ^ 16 /\ 0 <= flags c < 2 ^ 8.

(** ** The device table *)

Definition AT24_SIZE_BYTELEN : Z := 5.
Definition AT24_SIZE_FLAGS : Z := 8.

Definition AT24_BITMASK (x : Z) : Z := BIT x - 1.

(** [((1 << AT24_SIZE_FLAGS | (_flags)) << AT24_SIZE_BYTELEN | ilog2(_len))] *)
Definition AT24_DEVICE_MAGIC (len fl : Z) : Z :=
  Z.lor (Z.shiftl (Z.lor (Z.shiftl 1 AT24_SIZE_FLAGS) fl) AT24_SIZE_BYTELEN)
        (ilog2 len).

Definition delta_at24_ids : list (string * Z) :=
  [ ("24c00-delta", AT24_DEVICE_MAGIC (128 / 8) AT24_FLAG_TAKE8ADDR);
    ("24c01-delta", AT24_DEVICE_MAGIC (1024 / 8) 0);
    ("24cs01-delta", AT24_DEVICE_MAGIC 16
                       (Z.lor AT24_FLAG_SERIAL AT24_FLAG_READONLY));
    ("24c02-delta", AT24_DEVICE_MAGIC (2048 / 8) 0);
    ("24cs02-delta", AT24_DEVICE_MAGIC 16
                       (Z.lor AT24_FLAG_SERIAL AT24_FLAG_READONLY));
    ("24mac402-delta", AT24_DEVICE_MAGIC (48 / 8)
                       (Z.lor AT24_FLAG_MAC AT24_FLAG_READONLY));
    ("24mac602-delta", AT24_DEVICE_MAGIC (64 / 8)
                       (Z.lor AT24_FLAG_MAC AT24_FLAG_READONLY));
    ("spd-delta", AT24_DEVICE_MAGIC (2048 / 8)
                       (Z.lor AT24_FLAG_READONLY AT24_FLAG_IRUGO));
    ("24c04-delta", AT24_DEVICE_MAGIC (4096 / 8) 0);
    ("24cs04-delta", AT24_DEVICE_MAGIC 16
                       (Z.lor AT24_FLAG_SERIAL AT24_FLAG_READONLY));
    ("24c08-delta", AT24_DEVICE_MAGIC (8192 / 8) 0);
    ("24cs08-delta", AT24_DEVICE_MAGIC 16
                       (Z.lor AT24_FLAG_SERIAL AT24_FLAG_READONLY));
    ("24c16-delta", AT24_DEVICE_MAGIC (16384 / 8) 0);
    ("24cs16-delta", AT24_DEVICE_MAGIC 16
                       (Z.lor AT24_FLAG_SERIAL AT24_FLAG_READONLY));
    ("24c32-delta", AT24_DEVICE_MAGIC (32768 / 8) AT24_FLAG_ADDR16);
    ("24cs32-delta", AT24_DEVICE_MAGIC 16
                       (Z.lor (Z.lor AT24_FLAG_ADDR16 AT24_FLAG_SERIAL)
                              AT24_FLAG_READONLY));
    ("24c64-delta", AT24_DEVICE_MAGIC (65536 / 8) AT24_FLAG_ADDR16);
    ("24cs64-delta", AT24_DEVICE_MAGIC 16
                       (Z.lor (Z.lor AT24_FLAG_ADDR16 AT24_FLAG_SERIAL)
                              AT24_FLAG_READONLY));
    ("24c128-delta", AT24_DEVICE_MAGIC (131072 / 8) AT24_FLAG_ADDR16);
    ("24c256-delta", AT24_DEVICE_MAGIC (262144 / 8) AT24_FLAG_ADDR16);
    ("24c512-delta", AT24_DEVICE_MAGIC (524288 / 8) AT24_FLAG_ADDR16);
    ("24c1024-delta", AT24_DEVICE_MAGIC (1048576 / 8) AT24_FLAG_ADDR16);
    ("24c2048-delta", AT24_DEVICE_MAGIC (2097152 / 8) AT24_FLAG_ADDR16);
    ("at24-delta", 0) ]%string.

Fixpoint driver_data (name : string) (ids : list (string * Z)) : option Z :=
  match ids with
  | [] => None
  | (n, magic) :: rest => if String.eqb n name then Some magic
                          else driver_data name rest
  end.

(** ** Geometry resolution (the head of [at24_probe]) *)

(** The devicetree node of the client, as far as [at24_get_ofdata] looks
    at it: the presence of "read-only" and the big-endian 32-bit value of
    "pagesize".  [None] stands for a client without a node, and for a
    kernel built without [CONFIG_OF], where [at24_get_ofdata] is empty. *)
Record device_node : Type := mk_node {
  of_read_only : bool;
  of_pagesize : option Z   (* be32_to_cpup(val), a u32 *)
}.

Definition at24_get_ofdata (node : option device_node)
    (chip : at24_platform_data) : at24_platform_data :=
  match node with
  | None => chip
  | Some n =>
      let chip1 :=
        if of_read_only n
        then mk_chip (byte_len chip) (page_size chip)
                     (u8 (Z.lor (flags chip) AT24_FLAG_READONLY))
        else chip in
      match of_pagesize n with
      | Some val => mk_chip (byte_len chip1) (u16 val) (flags chip1)
      | None => chip1
      end
  end.

(** Lines 419-442: the chip description comes from the platform data when
    the board supplies it, else from the table magic [id->driver_data]
    (a [kernel_ulong_t]); a zero magic is [-ENODEV]. *)
Definition at24_resolve_chip (platform_data : option at24_platform_data)
    (node : option device_node) (magic : Z) : Z + at24_platform_data :=
  match platform_data with
  | Some chip => inr chip
  | None =>
      if magic =? 0 then inl (- ENODEV)
      else
        let len := u32 (BIT (Z.land magic (AT24_BITMASK AT24_SIZE_BYTELEN))) in
        let magic1 := Z.shiftr magic AT24_SIZE_BYTELEN in
        let fl := u8 (Z.land magic1 (AT24_BITMASK AT24_SIZE_FLAGS)) in
        inr (at24_get_ofdata node (mk_chip len 1 fl))
  end.

(** Lines 469-472. *)
Definition at24_num_addresses (chip : at24_platform_data) : Z :=
  if has_flag chip AT24_FLAG_TAKE8ADDR then 8
  else DIV_ROUND_UP (byte_len chip)
                    (if has_flag chip AT24_FLAG_ADDR16 then 65536 else 256).

(** The span of in-chip offsets served by one slave address. *)
Definition address_span (chip : at24_platform_data) : Z :=
  if has_flag chip AT24_FLAG_ADDR16 then 65536 else 256.

(** ** [at24_translate_offset]

    [offset] is an [unsigned]; the result is the index [i] into
    [at24->client[]] and the offset left in [*offset]. *)
Definition at24_translate_offset (chip : at24_platform_data) (offset : Z)
    : Z * Z :=
  if has_flag chip AT24_FLAG_ADDR16
  then (Z.shiftr offset 16, Z.land offset 65535)
  else (Z.shiftr offset 8, Z.land offset 255).

(** ** The system the driver runs in

    The bus-transaction primitives, the clock and [msleep] are supplied
    by the kernel; the driver only calls them.  A [Bus] gives the device
    behind the adapter as a state machine: each SMBus primitive receives
    the current value of [jiffies], the client (the index into
    [at24->client[]] that [at24_translate_offset] selected) and its
    arguments, and answers with its status ([0] or a byte on success, a
    negative errno on failure), the next device state and the number of
    jiffies the transaction took. *)

Record xfer (D : Type) : Type := mk_xfer {
  x_status : Z;
  x_dev : D;
  x_ticks : nat
}.
Arguments mk_xfer {D} _ _ _.
Arguments x_status {D} _.
Arguments x_dev {D} _.
Arguments x_ticks {D} _.

Record Bus (D : Type) : Type := mk_bus {
  (* now client command value *)
  bus_write_byte_data : Z -> Z -> Z -> Z -> D -> xfer D;
  (* now client *)
  bus_read_byte : Z -> Z -> D -> xfer D;
  (* now client command value *)
  bus_write_word_data : Z -> Z -> Z -> Z -> D -> xfer D;
  (* jiffies by which msleep(1) oversleeps its minimum of one jiffy *)
  bus_oversleep : Z -> D -> nat
}.
Arguments bus_write_byte_data {D} _ _ _ _ _ _.
Arguments bus_read_byte {D} _ _ _ _.
Arguments bus_write_word_data {D} _ _ _ _ _ _.
Arguments bus_oversleep {D} _ _ _.

Inductive event : Type :=
| EvLock
| EvUnlock
| EvWriteByteData (client command value status : Z)
| EvReadByte (client status : Z)
| EvWriteWordData (client command value status : Z)
| EvSleep (msecs : Z).

Record Sys (D : Type) : Type := mk_sys {
  jiffies : Z;
  dev : D;
  locked : bool;
  log : list event   (* most recent event first *)
}.
Arguments mk_sys {D} _ _ _ _.
Arguments jiffies {D} _.
Arguments dev {D} _.
Arguments locked {D} _.
Arguments log {D} _.

(** The events of a run in the order they happened. *)
Definition history {D : Type} (s : Sys D) : list event := rev (log s).

(** Whether an event is a bus transaction. *)
Definition is_bus_event (e : event) : bool :=
  match e with
  | EvWriteByteData _ _ _ _ | EvReadByte _ _ | EvWriteWordData _ _ _ _ => true
  | _ => false
  end.

(** *** The monad of driver code: state, and [None] when the fuel of a
    loop is used up.  The totality lemmas below show that the fuel the
    driver functions take is always enough. *)

Definition M (D A : Type) : Type := Sys D -> option (A * Sys D).

Definition ret {D A : Type} (a : A) : M D A := fun s => Some (a, s).

Definition bind {D A B : Type} (m : M D A) (k : A -> M D B) : M D B :=
  fun s => match m s with
           | Some (a, s1) => k a s1
           | None => None
           end.

Definition out_of_fuel {D A : Type} : M D A := fun _ => None.

Declare Scope drv_scope.
Delimit Scope drv_scope with drv.
Notation "x <- c1 ;; c2" := (bind c1 (fun x => c2))
  (at level 61, c1 at next level, right associativity) : drv_scope.
Notation "' pat <- c1 ;; c2" :=
  (bind c1 (fun x => match x with pat => c2 end))
  (at level 61, pat pattern, c1 at next level, right associativity) : drv_scope.
Notation "c1 ;; c2" := (bind c1 (fun _ => c2))
  (at level 61, right associativity) : drv_scope.
Local Open Scope drv_scope.

(** [buf[pos] = v] on a buffer held as a list. *)
Fixpoint store (buf : list Z) (pos : nat) (v : Z) : list Z :=
  match buf, pos with
  | [], _ => []
  | _ :: tl, O => v :: tl
  | hd :: tl, S p => hd :: store tl p v
  end.

(** [time_before(a, b)] on the clock. The clock is a monotonic count of
    jiffies; the wrap of the 64-bit counter is outside the model. *)
Definition time_before (a b : Z) : bool := a <? b.

(** ** Device instance ([struct at24_data]) *)

Record at24_data : Type := mk_at24 {
  chip : at24_platform_data;
  use_smbus : Z;
  write_max : Z;       (* unsigned *)
  num_addresses : Z;   (* unsigned *)
  bin_size : Z;        (* bin.size, a size_t *)
  bin_mode : Z;        (* bin.attr.mode *)
  bin_write : bool;    (* whether bin.write is set *)
  client : list Z      (* bus addresses of client[0 .. num_addresses-1] *)
}.

Section Driver.

Context {D : Type}.
Variable bus : Bus D.

(** Module parameters [io_limit] and [write_timeout] (both [unsigned]),
    and [msecs_to_jiffies] of [linux/jiffies.h]. *)
Variable io_limit : Z.
Variable write_timeout : Z.
Variable msecs_to_jiffies : Z -> Z.

(** *** Kernel services *)

Definition get_jiffies : M D Z := fun s => Some (jiffies s, s).

(** The primitives return an [s32]. *)
Definition run_xfer (x : xfer D) (ev : Z -> event) (s : Sys D)
    : option (Z * Sys D) :=
  Some (s32 (x_status x),
        mk_sys (jiffies s + Z.of_nat (x_ticks x)) (x_dev x) (locked s)
               (ev (s32 (x_status x)) :: log s)).

Definition i2c_smbus_write_byte_data (cl command value : Z) : M D Z :=
  fun s => run_xfer (bus_write_byte_data bus (jiffies s) cl command value (dev s))
                    (EvWriteByteData cl command value) s.

Definition i2c_smbus_read_byte (cl : Z) : M D Z :=
  fun s => run_xfer (bus_read_byte bus (jiffies s) cl (dev s))
                    (EvReadByte cl) s.

Definition i2c_smbus_write_word_data (cl command value : Z) : M D Z :=
  fun s => run_xfer (bus_write_word_data bus (jiffies s) cl command value (dev s))
                    (EvWriteWordData cl command value) s.

(** [msleep(1)] returns after at least one jiffy. *)
Definition msleep (msecs : Z) : M D unit :=
  fun s => Some (tt, mk_sys (jiffies s + 1
                               + Z.of_nat (bus_oversleep bus (jiffies s) (dev s)))
                            (dev s) (locked s) (EvSleep msecs :: log s)).

Definition mutex_lock : M D unit :=
  fun s => Some (tt, mk_sys (jiffies s) (dev s) true (EvLock :: log s)).

Definition mutex_unlock : M D unit :=
  fun s => Some (tt, mk_sys (jiffies s) (dev s) false (EvUnlock :: log s)).

(** *** [at24_eeprom_read] *)

(** The [do ... while (time_before(read_time, timeout))] loop of
    [at24_eeprom_read].  The status of the set-address write is
    assigned to [status] and overwritten by the next statement. *)
Fixpoint eeprom_read_retry (fuel : nat) (cl offset count timeout : Z)
    (buf : list Z) (pos : nat) : M D (Z * list Z) :=
  match fuel with
  | O => out_of_fuel
  | S fuel' =>
      read_time <- get_jiffies ;;
      _ <- i2c_smbus_write_byte_data cl (Z.land (Z.shiftr offset 8) 255)
                                        (Z.land offset 255) ;;
      status <- i2c_smbus_read_byte cl ;;
      let buf1 := if 0 <=? status then store buf pos (u8 status) else buf in
      let status1 := if 0 <=? status then count else status in
      if u64 status1 =? count then ret (count, buf1)
      else
        msleep 1 ;;
        if time_before read_time timeout
        then eeprom_read_retry fuel' cl offset count timeout buf1 pos
        else ret (- ETIMEDOUT, buf1)
  end.

(** Iterations the retry loops can need: the deadline is
    [msecs_to_jiffies(write_timeout)] jiffies away and every iteration
    sleeps at least one jiffy. *)
Definition retry_fuel : nat := S (Z.to_nat (msecs_to_jiffies write_timeout)).

(** [buf] is the caller's buffer and [pos] the index in it that the
    C pointer [buf] points at. *)
Definition at24_eeprom_read (at24 : at24_data) (buf : list Z) (pos : nat)
    (offset count : Z) : M D (Z * list Z) :=
  let '(cl, offset) := at24_translate_offset (chip at24) offset in
  let count := if count >? io_limit then io_limit else count in
  let count := 1 in
  now <- get_jiffies ;;
  let timeout := now + msecs_to_jiffies write_timeout in
  eeprom_read_retry retry_fuel cl offset count timeout buf pos.

(** *** [at24_read] *)

Fixpoint at24_read_loop (fuel : nat) (at24 : at24_data) (buf : list Z)
    (pos : nat) (off count retval : Z) : M D (Z * list Z) :=
  if count =? 0 then ret (retval, buf)
  else
    match fuel with
    | O => out_of_fuel
    | S fuel' =>
        '(status, buf1) <- at24_eeprom_read at24 buf pos (u32 off) count ;;
        if status <=? 0
        then ret (if retval =? 0 then status else retval, buf1)
        else at24_read_loop fuel' at24 buf1 (pos + Z.to_nat status)
                            (off + status) (u64 (count - status))
                            (retval + status)
    end.

(** Returns the return value and the contents of the [count] bytes at
    [buf] afterwards. *)
Definition at24_read (at24 : at24_data) (off count : Z) : M D (Z * list Z) :=
  if count =? 0 then ret (count, [])
  else
    let buf := repeat 0 (Z.to_nat count) in
    mutex_lock ;;
    r <- at24_read_loop (Z.to_nat count) at24 buf 0 off count 0 ;;
    mutex_unlock ;;
    ret r.

Definition at24_bin_read (at24 : at24_data) (off count : Z)
    : M D (Z * list Z) :=
  at24_read at24 off count.

(** *** [at24_eeprom_write] *)

(** Lines 305-312: the count the write is cut down to. [offset] is the
    in-chip offset left by [at24_translate_offset]. *)
Definition at24_write_count (at24 : at24_data) (offset count : Z) : Z :=
  let count := if count >? write_max at24 then write_max at24 else count in
  let next_page := roundup (u32 (offset + 1)) (page_size (chip at24)) in
  if u64 (offset + count) >? next_page
  then u32 (next_page - offset)
  else count.

(** The retry loop of [at24_eeprom_write]; [b] is [buf[0]]. *)
Fixpoint eeprom_write_retry (fuel : nat) (cl offset count timeout b : Z)
    : M D Z :=
  match fuel with
  | O => out_of_fuel
  | S fuel' =>
      write_time <- get_jiffies ;;
      st <- i2c_smbus_write_word_data cl (Z.land (Z.shiftr offset 8) 255)
              (u16 (Z.lor (Z.land offset 255) (s8 b))) ;;
      let status := if st =? 0 then count else st in
      if u64 status =? count then ret count
      else
        msleep 1 ;;
        if time_before write_time timeout
        then eeprom_write_retry fuel' cl offset count timeout b
        else ret (- ETIMEDOUT)
  end.

(** [buf] holds the caller's data and [pos] is the index in it that
    the C pointer [buf] points at. *)
Definition at24_eeprom_write (at24 : at24_data) (buf : list Z) (pos : nat)
    (offset count : Z) : M D Z :=
  let '(cl, offset) := at24_translate_offset (chip at24) offset in
  let count := at24_write_count at24 offset count in
  now <- get_jiffies ;;
  let timeout := now + msecs_to_jiffies write_timeout in
  eeprom_write_retry retry_fuel cl offset count timeout (nth pos buf 0).

(** *** [at24_write] *)

Fixpoint at24_write_loop (fuel : nat) (at24 : at24_data) (buf : list Z)
    (pos : nat) (off count retval : Z) : M D Z :=
  if count =? 0 then ret retval
  else
    match fuel with
    | O => out_of_fuel
    | S fuel' =>
        status <- at24_eeprom_write at24 buf pos (u32 off) 1 ;;
        if status <=? 0
        then ret (if retval =? 0 then status else retval)
        else at24_write_loop fuel' at24 buf (pos + Z.to_nat status)
                             (off + status) (u64 (count - status))
                             (retval + status)
    end.

Definition at24_write (at24 : at24_data) (buf : list Z) (off count : Z)
    : M D Z :=
  if count =? 0 then ret count
  else
    mutex_lock ;;
    r <- at24_write_loop (Z.to_nat count) at24 buf 0 off count 0 ;;
    mutex_unlock ;;
    ret r.

(** [off] is a [loff_t], [attr->size] a [size_t]: the comparison is
    made on 64-bit unsigned values. *)
Definition at24_bin_write (at24 : at24_data) (buf : list Z) (off count : Z)
    : M D Z :=
  if u64 off >=? bin_size at24 then ret (- EFBIG)
  else at24_write at24 buf off count.

End Driver.

(** ** Device construction ([at24_probe]) and module start *)

(** What [at24_probe] asks of the adapter: [i2c_check_functionality] for
    the five capabilities it tests, and whether [i2c_new_dummy] can
    reserve a given address. *)
Record i2c_adapter : Type := mk_adapter {
  func_i2c : bool;
  func_smbus_read_i2c_block : bool;
  func_smbus_read_word_data : bool;
  func_smbus_read_byte_data : bool;
  func_smbus_write_i2c_block : bool;
  addr_free : Z -> bool
}.

(** The client being probed and what its probe meets: the platform data
    and devicetree node, the adapter, the bus address, what
    [sysfs_create_bin_file] returns, and whether the two [devm_kzalloc]
    calls (the instance, the write buffer) succeed. *)
Record i2c_client : Type := mk_i2c_client {
  platform_data : option at24_platform_data;
  of_node : option device_node;
  adapter : i2c_adapter;
  addr : Z;
  sysfs_create_err : Z;      (* what sysfs_create_bin_file returns *)
  kzalloc_at24 : bool;       (* devm_kzalloc of struct at24_data succeeds *)
  kzalloc_writebuf : bool    (* devm_kzalloc of at24->writebuf succeeds *)
}.

(** A client whose probe finds memory for both allocations. *)
Definition mk_client (pd : option at24_platform_data)
    (node : option device_node) (a : i2c_adapter) (address err : Z)
    : i2c_client :=
  mk_i2c_client pd node a address err true true.

Definition I2C_SMBUS_BYTE_DATA : Z := 2.
Definition I2C_SMBUS_WORD_DATA : Z := 3.
Definition I2C_SMBUS_I2C_BLOCK_DATA : Z := 8.
Definition I2C_SMBUS_BLOCK_MAX : Z := 32.
Definition S_IRUGO : Z := 292.
Definition S_IRUSR : Z := 256.
Definition S_IWUSR : Z := 128.

(** Lines 455-467. Whatever capability is found, [use_smbus] ends as
    [I2C_SMBUS_BYTE_DATA]. *)
Definition at24_use_smbus (a : i2c_adapter) : Z + Z :=
  if func_i2c a then inr 0
  else
    match
      (if func_smbus_read_i2c_block a then inr I2C_SMBUS_I2C_BLOCK_DATA
       else if func_smbus_read_word_data a then inr I2C_SMBUS_WORD_DATA
       else if func_smbus_read_byte_data a then inr I2C_SMBUS_BYTE_DATA
       else inl (- EPFNOSUPPORT))
    with
    | inl e => inl e
    | inr _ => inr I2C_SMBUS_BYTE_DATA
    end.

(** Lines 525-532: [client[i]] for [i] from [i] up, [n] of them. *)
Fixpoint at24_new_dummies (a : i2c_adapter) (base i : Z) (n : nat)
    : option (list Z) :=
  match n with
  | O => Some []
  | S n' =>
      if addr_free a (base + i)
      then match at24_new_dummies a base (i + 1) n' with
           | Some l => Some ((base + i) :: l)
           | None => None
           end
      else None
  end.

(** [at24_probe].  The two [-ENOMEM] returns are those of lines 474-476
    (the instance) and 514-516 (the write buffer, allocated only for a
    writable instance). *)
Definition at24_probe (io_limit : Z) (cl : i2c_client) (magic : Z)
    : Z + at24_data :=
  match at24_resolve_chip (platform_data cl) (of_node cl) magic with
  | inl e => inl e
  | inr chip =>
      if page_size chip =? 0 then inl (- EINVAL)
      else
        match at24_use_smbus (adapter cl) with
        | inl e => inl e
        | inr use_smbus =>
            let num_addresses := at24_num_addresses chip in
            if negb (kzalloc_at24 cl) then inl (- ENOMEM)
            else
            let mode := if has_flag chip AT24_FLAG_IRUGO then S_IRUGO
                        else S_IRUSR in
            let writable := negb (has_flag chip AT24_FLAG_READONLY) in
            let can_write :=
              writable && ((use_smbus =? 0)
                           || func_smbus_write_i2c_block (adapter cl)) in
            let write_max :=
              if can_write then
                let wm := page_size chip in
                let wm := if wm >? io_limit then io_limit else wm in
                if negb (use_smbus =? 0) && (wm >? I2C_SMBUS_BLOCK_MAX)
                then I2C_SMBUS_BLOCK_MAX else wm
              else 0 in
            let mode := if can_write then Z.lor mode S_IWUSR else mode in
            if can_write && negb (kzalloc_writebuf cl) then inl (- ENOMEM)
            else
            match at24_new_dummies (adapter cl) (addr cl) 1
                    (Z.to_nat (num_addresses - 1)) with
            | None => inl (- EADDRINUSE)
            | Some dummies =>
                if sysfs_create_err cl =? 0
                then inr (mk_at24 chip use_smbus write_max num_addresses
                                  (byte_len chip) mode can_write
                                  (addr cl :: dummies))
                else inl (sysfs_create_err cl)
            end
        end
  end.

(** The module parameters and whether the driver is registered with the
    I2C core; devices are probed only for a registered driver. *)
Record module_state : Type := mk_module {
  m_io_limit : Z;        (* unsigned *)
  m_write_timeout : Z;   (* unsigned *)
  m_registered : bool
}.

(** The module as loaded, before [delta_at24_init] runs. *)
Definition module_loaded (io_limit write_timeout : Z) : module_state :=
  mk_module io_limit write_timeout false.

(** [delta_at24_init]; [add_status] is what [i2c_add_driver] returns. *)
Definition delta_at24_init (add_status : Z) (m : module_state)
    : Z * module_state :=
  if m_io_limit m =? 0 then (- EINVAL, m)
  else
    let io_limit := u32 (rounddown_pow_of_two (m_io_limit m)) in
    (add_status, mk_module io_limit (m_write_timeout m) (add_status =? 0)).

(** A probe made by the I2C core for the registered driver. *)
Definition module_probe (m : module_state) (cl : i2c_client) (magic : Z)
    : option (Z + at24_data) :=
  if m_registered m then Some (at24_probe (m_io_limit m) cl magic) else None.

(** ** Two devices to run the driver against *)

(** A part with a 16-bit address pointer, as the 24c128 the board file
    names: two bytes after the slave address load the address pointer,
    a third byte is stored there and starts a write cycle of [t_wr]
    jiffies during which the part does not acknowledge; a read returns
    the byte at the pointer and advances it. *)
Module Eeprom16.

Record state : Type := mk_state {
  mem : Z -> Z;
  ptr : Z;
  busy_until : Z
}.

Definition ENXIO : Z := 6.
Definition t_wr : Z := 5.

Definition busy (now : Z) (d : state) : bool := now <? busy_until d.

Definition write_byte_data (now cl command value : Z) (d : state)
    : xfer state :=
  if busy now d then mk_xfer (- ENXIO) d 0
  else mk_xfer 0 (mk_state (mem d) (command * 256 + value) (busy_until d)) 0.

Definition read_byte (now cl : Z) (d : state) : xfer state :=
  if busy now d then mk_xfer (- ENXIO) d 0
  else mk_xfer (mem d (ptr d))
               (mk_state (mem d) (u16 (ptr d + 1)) (busy_until d)) 0.

(** SMBus sends the low byte of the word first. *)
Definition write_word_data (now cl command value : Z) (d : state)
    : xfer state :=
  if busy now d then mk_xfer (- ENXIO) d 0
  else
    let a := command * 256 + Z.land value 255 in
    let v := Z.shiftr value 8 in
    mk_xfer 0 (mk_state (fun x => if x =? a then v else mem d x)
                        (u16 (a + 1)) (now + t_wr)) 0.

Definition bus : Bus state :=
  mk_bus state write_byte_data read_byte write_word_data (fun _ _ => O).

(** An erased part at boot. *)
Definition erased : Sys state :=
  mk_sys 1000 (mk_state (fun _ => 255) 0 0) false [].

End Eeprom16.

(** A bus that answers the successive transactions with the statuses of
    a script and does not acknowledge once the script is used up. *)
Module Scripted.

Definition ENXIO : Z := 6.

Definition answer (d : list Z) : xfer (list Z) :=
  match d with
  | [] => mk_xfer (- ENXIO) [] 0
  | st :: rest => mk_xfer st rest 0
  end.

Definition bus : Bus (list Z) :=
  mk_bus (list Z) (fun _ _ _ _ => answer) (fun _ _ => answer)
         (fun _ _ _ _ => answer) (fun _ _ => O).

Definition start (script : list Z) : Sys (list Z) :=
  mk_sys 1000 script false [].

End Scripted.

(** The 24c128 of the board file on an adapter with full I2C, with the
    default module parameters, and the same part with a 64-byte page
    given as platform data. *)
Definition full_i2c : i2c_adapter :=
  mk_adapter true true true true true (fun _ => true).

Definition at24_24c128 : at24_data :=
  mk_at24 (mk_chip 16384 1 128) 0 1 1 16384 384 true [86].

Definition at24_24c128_paged : at24_data :=
  mk_at24 (mk_chip 16384 64 128) 0 64 1 16384 384 true [86].

(** [msecs_to_jiffies] at [HZ = 1000]. *)
Definition msecs_to_jiffies_hz1000 (m : Z) : Z := m.

(** ** Well-formed instances and the spec's arithmetic *)

(** What [at24_probe] guarantees of the instance it builds, as far as the
    transfer functions rely on it. *)
Definition at24_wf (at24 : at24_data) : Prop :=
  chip_wf (chip at24) /\ 0 < page_size (chip at24) /\
  0 <= write_max at24 < 2 ^ 32 /\ bin_size at24 = byte_len (chip at24).

(** [ceil(n / d)] as the least [k] with [n <= k * d]. *)
Definition is_ceil_div (n d k : Z) : Prop := (k - 1) * d < n <= k * d.

(** The start of the page after the one that holds [offset]: the least
    multiple of [page] above [offset]. *)
Definition next_page_boundary (offset page : Z) : Z := (offset / page + 1) * page.

(** ** Progress of a range request

    [read_moved at24 off count s0 moved buf s]: [at24_read] of [count]
    bytes at [off], entered in state [s0], has taken the lock and made
    only successful transfer-engine calls so far; they moved [moved]
    bytes in all and left the buffer [buf] and the system [s]. *)
Inductive read_moved {D : Type} (bus : Bus D) (io_limit write_timeout : Z)
    (msecs_to_jiffies : Z -> Z) (at24 : at24_data) (off count : Z)
    (s0 : Sys D) : Z -> list Z -> Sys D -> Prop :=
| read_moved_none :
    read_moved bus io_limit write_timeout msecs_to_jiffies at24 off count s0
      0 (repeat 0 (Z.to_nat count))
      (mk_sys (jiffies s0) (dev s0) true (EvLock :: log s0))
| read_moved_more : forall moved buf s status buf1 s1,
    read_moved bus io_limit write_timeout msecs_to_jiffies at24 off count s0
      moved buf s ->
    moved < count ->
    at24_eeprom_read bus io_limit write_timeout msecs_to_jiffies at24 buf
      (Z.to_nat moved) (u32 (off + moved)) (count - moved) s
      = Some ((status, buf1), s1) ->
    0 < status ->
    read_moved bus io_limit write_timeout msecs_to_jiffies at24 off count s0
      (moved + status) buf1 s1.

(** The same for [at24_write] of the [count] bytes of [buf] at [off]. *)
Inductive write_moved {D : Type} (bus : Bus D) (write_timeout : Z)
    (msecs_to_jiffies : Z -> Z) (at24 : at24_data) (buf : list Z)
    (off count : Z) (s0 : Sys D) : Z -> Sys D -> Prop :=
| write_moved_none :
    write_moved bus write_timeout msecs_to_jiffies at24 buf off count s0
      0 (mk_sys (jiffies s0) (dev s0) true (EvLock :: log s0))
| write_moved_more : forall moved s status s1,
    write_moved bus write_timeout msecs_to_jiffies at24 buf off count s0
      moved s ->
    moved < count ->
    at24_eeprom_write bus write_timeout msecs_to_jiffies at24 buf
      (Z.to_nat moved) (u32 (off + moved)) 1 s = Some (status, s1) ->
    0 < status ->
    write_moved bus write_timeout msecs_to_jiffies at24 buf off count s0
      (moved + status) s1.

(** Leaving a range request: the lock is released. *)
Definition unlocked {D : Type} (s : Sys D) : Sys D :=
  mk_sys (jiffies s) (dev s) false (EvUnlock :: log s).

(** A write of [data] at [off] followed by a read of as many bytes at
    [off], both complete, gives [data] back. *)
Definition round_trip {D : Type} (bus : Bus D) (io_limit write_timeout : Z)
    (msecs_to_jiffies : Z -> Z) (at24 : at24_data) (off : Z) (data : list Z)
    (s : Sys D) : Prop :=
  let n := Z.of_nat (List.length data) in
  exists s1 s2,
    at24_write bus write_timeout msecs_to_jiffies at24 data off n s
      = Some (n, s1) /\
    at24_read bus io_limit write_timeout msecs_to_jiffies at24 off n s1
      = Some ((n, data), s2).

(** ** Calls into the I2C core and sysfs

    [at24_probe] and [at24_remove] reserve and release the alias
    addresses with [i2c_new_dummy] and [i2c_unregister_device] and create
    and remove the sysfs file.  The calls they make, in order. *)
Inductive kcall : Type :=
| KNewDummy (address : Z) (ok : bool)
| KUnregister (address : Z)
| KSysfsCreate (err : Z)
| KSysfsRemove.

(** Lines 525-532 on the array: the slots [client[i]] for [i] from [i]
    up, [n] of them (zeroed by [devm_kzalloc]), the calls made, and
    whether the loop ran to its end. *)
Fixpoint at24_probe_dummies (a : i2c_adapter) (base i : Z) (n : nat)
    : list (option Z) * list kcall * bool :=
  match n with
  | O => ([], [], true)
  | S n' =>
      if addr_free a (base + i)
      then
        let '(slots, calls, ok) := at24_probe_dummies a base (i + 1) n' in
        (Some (base + i) :: slots, KNewDummy (base + i) true :: calls, ok)
      else (repeat None n, [KNewDummy (base + i) false], false)
  end.

(** Lines 544-549, the label [err_clients]: every slot that is not NULL
    is unregistered, from [client[1]] up. *)
Fixpoint at24_err_clients (slots : list (option Z)) : list kcall :=
  match slots with
  | [] => []
  | Some a :: rest => KUnregister a :: at24_err_clients rest
  | None :: rest => at24_err_clients rest
  end.

(** The calls of one [at24_probe]; its result is [at24_probe].  The
    returns before the first [i2c_new_dummy], among them the two
    [-ENOMEM], make no call. *)
Definition at24_probe_calls (cl : i2c_client) (magic : Z) : list kcall :=
  match at24_resolve_chip (platform_data cl) (of_node cl) magic with
  | inl _ => []
  | inr chip =>
      if page_size chip =? 0 then []
      else
        match at24_use_smbus (adapter cl) with
        | inl _ => []
        | inr use_smbus =>
            if negb (kzalloc_at24 cl) then []
            else
            let can_write :=
              negb (has_flag chip AT24_FLAG_READONLY)
              && ((use_smbus =? 0)
                  || func_smbus_write_i2c_block (adapter cl)) in
            if can_write && negb (kzalloc_writebuf cl) then []
            else
            let '(slots, calls, ok) :=
              at24_probe_dummies (adapter cl) (addr cl) 1
                (Z.to_nat (at24_num_addresses chip - 1)) in
            if ok then
              calls ++ KSysfsCreate (sysfs_create_err cl)
                    :: (if sysfs_create_err cl =? 0 then []
                        else at24_err_clients slots)
            else calls ++ at24_err_clients slots
        end
  end.

(** The loop of [at24_remove]: [client[i]] for [i] from [i] up, [n] of
    them.  Past the end of the array the C code has no defined
    behaviour; the model stops there. *)
Fixpoint at24_remove_loop (clients : list Z) (i n : nat) : list kcall :=
  match n with
  | O => []
  | S n' =>
      match nth_error clients i with
      | Some a => KUnregister a :: at24_remove_loop clients (S i) n'
      | None => []
      end
  end.

(** [at24_remove]. *)
Definition at24_remove (at24 : at24_data) : list kcall :=
  KSysfsRemove
    :: at24_remove_loop (client at24) 1 (Z.to_nat (num_addresses at24 - 1)).

(** The addresses reserved, and the addresses released, by a list of
    calls. *)
Fixpoint reserved (calls : list kcall) : list Z :=
  match calls with
  | [] => []
  | KNewDummy a true :: rest => a :: reserved rest
  | _ :: rest => reserved rest
  end.

Fixpoint released (calls : list kcall) : list Z :=
  match calls with
  | [] => []
  | KUnregister a :: rest => a :: released rest
  | _ :: rest => released rest
  end.

(** ** Kinds of events and of buses *)

Definition is_read_traffic (e : event) : bool :=
  match e with
  | EvWriteByteData _ _ _ _ | EvReadByte _ _ | EvSleep _ => true
  | _ => false
  end.

Definition is_write_traffic (e : event) : bool :=
  match e with
  | EvWriteWordData _ _ _ _ | EvSleep _ => true
  | _ => false
  end.

(** A bus whose read-byte request always succeeds, and a bus whose
    write-word transaction always succeeds. *)
Definition read_responsive {D : Type} (bus : Bus D) : Prop :=
  forall now cl d, 0 <= s32 (x_status (bus_read_byte bus now cl d)).

Definition write_responsive {D : Type} (bus : Bus D) : Prop :=
  forall now cl command value d,
    s32 (x_status (bus_write_word_data bus now cl command value d)) = 0.

(** A device that acknowledges everything and reads as 0x41. *)
Module Steady.

Definition bus : Bus unit :=
  mk_bus unit (fun _ _ _ _ d => mk_xfer 0 d 0) (fun _ _ d => mk_xfer 65 d 0)
         (fun _ _ _ _ d => mk_xfer 0 d 0) (fun _ _ => O).

Definition start : Sys unit := mk_sys 1000 tt false [].

End Steady.

(** The history of one [at24_eeprom_read], oldest event first: turns of
    a set-address write to command [hi] with data [lo] followed by a
    read-byte request, both to client [cl]; a turn whose read-byte
    request failed is followed by a sleep of 1 ms and, unless the call
    gave up there, by the next turn; the call succeeds on the one turn
    whose read-byte request returns a byte, which is the last. *)
Fixpoint is_read_run (cl hi lo : Z) (success : bool) (h : list event)
    : bool :=
  match h with
  | EvWriteByteData c a l _ :: EvReadByte c' st :: rest =>
      (c =? cl) && (a =? hi) && (l =? lo) && (c' =? cl) &&
      match rest with
      | [] => success && (0 <=? st)
      | EvSleep m :: rest' =>
          (m =? 1) && (st <? 0) &&
          match rest' with
          | [] => negb success
          | _ :: _ => is_read_run cl hi lo success rest'
          end
      | _ => false
      end
  | _ => false
  end.

(** The history of one [at24_eeprom_write] that accepts [count] bytes:
    turns of one write-word transaction to client [cl] with command [hi]
    and the word [word]; a turn whose status is neither 0 nor equal to
    [count] is followed by a sleep of 1 ms and, unless the call gave up
    there, by the next turn; the call succeeds on the last turn only. *)
Fixpoint is_write_run (cl hi word count : Z) (success : bool)
    (h : list event) : bool :=
  match h with
  | EvWriteWordData c a w st :: rest =>
      (c =? cl) && (a =? hi) && (w =? word) &&
      match rest with
      | [] => success && ((st =? 0) || (u64 st =? count))
      | EvSleep m :: rest' =>
          (m =? 1) && negb ((st =? 0) || (u64 st =? count)) &&
          match rest' with
          | [] => negb success
          | _ :: _ => is_write_run cl hi word count success rest'
          end
      | _ => false
      end
  | _ => false
  end.

(** A write-word transaction that was not acknowledged, or a sleep. *)
Definition is_failed_write (e : event) : bool :=
  match e with
  | EvWriteWordData _ _ _ st => negb (st =? 0)
  | EvSleep _ => true
  | _ => false
  end.

(** The conditions [at24_probe] tests on the adapter: one of the four
    capabilities to read, and a capability to write. *)
Definition adapter_can_read (a : i2c_adapter) : bool :=
  func_i2c a || func_smbus_read_i2c_block a || func_smbus_read_word_data a
  || func_smbus_read_byte_data a.

Definition adapter_can_write (a : i2c_adapter) : bool :=
  func_i2c a || func_smbus_write_i2c_block a.

(** A power of two. *)
Definition is_pow2 (n : Z) : Prop := exists k, 0 <= k /\ n = 2 ^ k.

(** * Properties *)

(** ** Machine arithmetic *)

Lemma u8_small x : 0 <= x < 2 ^ 8 -> u8 x = x.
Proof. intros H. unfold u8. now apply Z.mod_small. Qed.

Lemma u16_small x : 0 <= x < 2 ^ 16 -> u16 x = x.
Proof. intros H. unfold u16. now apply Z.mod_small. Qed.

Lemma u32_small x : 0 <= x < 2 ^ 32 -> u32 x = x.
Proof. intros H. unfold u32. now apply Z.mod_small. Qed.

Lemma u64_small x : 0 <= x < 2 ^ 64 -> u64 x = x.
Proof. intros H. unfold u64. now apply Z.mod_small. Qed.

Lemma u64_neg x : - 2 ^ 63 <= x < 0 -> 2 ^ 63 <= u64 x.
Proof.
  intros H. unfold u64.
  replace x with (x + 2 ^ 64 + (-1) * 2 ^ 64) by ring.
  rewrite Z.mod_add by lia. rewrite Z.mod_small; lia.
Qed.

Lemma u16_range x : 0 <= u16 x < 2 ^ 16.
Proof. unfold u16. apply Z.mod_pos_bound. lia. Qed.

Lemma u32_range x : 0 <= u32 x < 2 ^ 32.
Proof. unfold u32. apply Z.mod_pos_bound. lia. Qed.

Lemma shiftr_is_div x n : 0 <= n -> Z.shiftr x n = x / 2 ^ n.
Proof. intros. now apply Z.shiftr_div_pow2. Qed.

Lemma land_65535 x : Z.land x 65535 = x mod 2 ^ 16.
Proof. change 65535 with (Z.ones 16). apply Z.land_ones. lia. Qed.

Lemma land_255 x : Z.land x 255 = x mod 2 ^ 8.
Proof. change 255 with (Z.ones 8). apply Z.land_ones. lia. Qed.

Lemma land_31 x : Z.land x 31 = x mod 2 ^ 5.
Proof. change 31 with (Z.ones 5). apply Z.land_ones. lia. Qed.

(** Without wrap-around [DIV_ROUND_UP] is the ceiling of the quotient. *)
Lemma DIV_ROUND_UP_ceil n d :
  0 < d -> 0 <= n -> n + d <= 2 ^ 32 -> is_ceil_div n d (DIV_ROUND_UP n d).
Proof.
  intros Hd Hn Hfit. unfold is_ceil_div, DIV_ROUND_UP.
  rewrite u32_small by lia.
  pose proof (Z.div_mod (n + d - 1) d ltac:(lia)) as E.
  pose proof (Z.mod_pos_bound (n + d - 1) d Hd) as B.
  nia.
Qed.

Lemma address_span_pos c : 0 < address_span c.
Proof. unfold address_span. destruct (has_flag c AT24_FLAG_ADDR16); lia. Qed.

Lemma address_span_le c : address_span c <= 65536.
Proof. unfold address_span. destruct (has_flag c AT24_FLAG_ADDR16); lia. Qed.

(** ** Address translation *)

Lemma at24_translate_offset_eq c offset :
  at24_translate_offset c offset
  = (offset / address_span c, offset mod address_span c).
Proof.
  unfold at24_translate_offset, address_span.
  destruct (has_flag c AT24_FLAG_ADDR16).
  - now rewrite shiftr_is_div, land_65535 by lia.
  - now rewrite shiftr_is_div, land_255 by lia.
Qed.

Lemma at24_translate_offset_range c offset :
  0 <= offset < 2 ^ 32 ->
  0 <= fst (at24_translate_offset c offset) < 2 ^ 24 /\
  0 <= snd (at24_translate_offset c offset) < address_span c.
Proof.
  intros H. rewrite at24_translate_offset_eq. simpl.
  pose proof (address_span_pos c) as P.
  split; [| now apply Z.mod_pos_bound].
  split; [apply Z.div_pos; lia|].
  apply Z.div_lt_upper_bound; [lia|].
  unfold address_span. destruct (has_flag c AT24_FLAG_ADDR16); lia.
Qed.

(** Closed comparisons of numerals. *)
Ltac decide_bounds :=
  vm_compute; repeat split; try reflexivity; try (intro; discriminate).

Lemma div_below_ceil n d k offset :
  0 < d -> is_ceil_div n d k -> 0 <= offset < n -> 0 <= offset / d < k.
Proof.
  intros Hd [_ Hk] Ho. split; [apply Z.div_pos; lia|].
  apply Z.div_lt_upper_bound; nia.
Qed.

(** C3, amended.  For a chip description that fits its C types and every
    offset below [byte_len], [at24_translate_offset] yields the alias
    index [offset >> 16] and the in-chip offset [offset & 0xffff] when
    ADDR16 is set, [offset >> 8] and [offset & 0xff] otherwise; the
    in-chip offset is below the span of one address, and the alias index
    is below [num_addresses] provided that, with TAKE8ADDR, [byte_len] is
    at most eight spans and, without it, [byte_len + span] does not
    exceed 2^32. *)
Theorem at24_translate_offset_in_range (c : at24_platform_data) (offset : Z) :
  chip_wf c ->
  0 <= offset < byte_len c ->
  (if has_flag c AT24_FLAG_TAKE8ADDR
   then byte_len c <= 8 * address_span c
   else byte_len c + address_span c <= 2 ^ 32) ->
  let '(i, o) := at24_translate_offset c offset in
  i = (if has_flag c AT24_FLAG_ADDR16 then Z.shiftr offset 16
       else Z.shiftr offset 8) /\
  o = (if has_flag c AT24_FLAG_ADDR16 then Z.land offset 65535
       else Z.land offset 255) /\
  0 <= i < at24_num_addresses c /\
  0 <= o < address_span c.
Proof.
  intros (Hlen & _ & _) Ho Hgeo.
  destruct (at24_translate_offset c offset) as [i o] eqn:E.
  pose proof (address_span_pos c) as P.
  assert (Ei : i = offset / address_span c /\ o = offset mod address_span c).
  { rewrite at24_translate_offset_eq in E. now inversion E. }
  destruct Ei as [Ei Eo].
  split; [|split; [|split]].
  - unfold at24_translate_offset in E.
    destruct (has_flag c AT24_FLAG_ADDR16); now inversion E.
  - unfold at24_translate_offset in E.
    destruct (has_flag c AT24_FLAG_ADDR16); now inversion E.
  - subst i. unfold at24_num_addresses.
    destruct (has_flag c AT24_FLAG_TAKE8ADDR).
    + split; [apply Z.div_pos; lia|].
      apply Z.div_lt_upper_bound; lia.
    + apply (div_below_ceil (byte_len c)); try lia.
      apply DIV_ROUND_UP_ceil; fold (address_span c); lia.
  - subst o. apply Z.mod_pos_bound. lia.
Qed.

(** The 24c128: offset 300 is on alias 0 at in-chip offset 300. *)
Lemma at24_translate_offset_in_range_witness :
  let '(i, o) := at24_translate_offset (mk_chip 16384 1 128) 300 in
  i = Z.shiftr 300 16 /\ o = Z.land 300 65535 /\
  0 <= i < at24_num_addresses (mk_chip 16384 1 128) /\
  0 <= o < address_span (mk_chip 16384 1 128).
Proof.
  apply (at24_translate_offset_in_range (mk_chip 16384 1 128) 300).
  - decide_bounds.
  - simpl. lia.
  - vm_compute. discriminate.
Defined.

(** C3 as stated fails.  A chip handed over as platform data with
    TAKE8ADDR and 4096 bytes behind 8-bit addresses is accepted by
    [at24_probe] with eight addresses, and offset 2048 translates to
    alias index 8.  And a [byte_len] of 2^32 - 1 without any flag makes
    the rounding-up division wrap to zero addresses. *)
Lemma at24_translate_offset_escapes :
  (let c := mk_chip 4096 1 AT24_FLAG_TAKE8ADDR in
   chip_wf c /\ 0 <= 2048 < byte_len c /\
   (exists d, at24_probe 128 (mk_client (Some c) None full_i2c 80 0) 0 = inr d
              /\ chip d = c /\ num_addresses d = 8) /\
   at24_translate_offset c 2048 = (8, 0) /\
   ~ fst (at24_translate_offset c 2048) < at24_num_addresses c) /\
  (let c := mk_chip 4294967295 1 0 in
   chip_wf c /\ 0 <= 0 < byte_len c /\
   at24_num_addresses c = 0 /\
   ~ fst (at24_translate_offset c 0) < at24_num_addresses c).
Proof.
  split; cbv zeta.
  - split; [decide_bounds|].
    split; [simpl; lia|].
    split; [eexists; split; [vm_compute; reflexivity|split; reflexivity]|].
    split; [reflexivity|]. vm_compute. discriminate.
  - split; [decide_bounds|].
    split; [simpl; lia|].
    split; [reflexivity|]. vm_compute. discriminate.
Qed.

(** ** Number of addresses *)

(** C6, amended.  For a chip description that fits its C types,
    [num_addresses] is 8 when TAKE8ADDR is set, whatever [byte_len] is;
    otherwise, when [byte_len + span] does not exceed 2^32, it is
    ceil(byte_len / span) with the span 65536 under ADDR16 and 256
    without.  In both cases it is at least 1 when [byte_len > 0]. *)
Theorem at24_num_addresses_spec (c : at24_platform_data) :
  chip_wf c ->
  address_span c = (if has_flag c AT24_FLAG_ADDR16 then 65536 else 256) /\
  (has_flag c AT24_FLAG_TAKE8ADDR = true -> at24_num_addresses c = 8) /\
  (has_flag c AT24_FLAG_TAKE8ADDR = false ->
   byte_len c + address_span c <= 2 ^ 32 ->
   is_ceil_div (byte_len c) (address_span c) (at24_num_addresses c)) /\
  (0 < byte_len c ->
   has_flag c AT24_FLAG_TAKE8ADDR = true
   \/ byte_len c + address_span c <= 2 ^ 32 ->
   1 <= at24_num_addresses c).
Proof.
  intros (Hlen & _ & _).
  pose proof (address_span_pos c) as P.
  assert (C : has_flag c AT24_FLAG_TAKE8ADDR = false ->
              byte_len c + address_span c <= 2 ^ 32 ->
              is_ceil_div (byte_len c) (address_span c) (at24_num_addresses c)).
  { intros T Hfit. unfold at24_num_addresses. rewrite T.
    change (if has_flag c AT24_FLAG_ADDR16 then 65536 else 256)
      with (address_span c).
    apply DIV_ROUND_UP_ceil; lia. }
  split; [reflexivity|]. split; [|split].
  - intros T. unfold at24_num_addresses. now rewrite T.
  - exact C.
  - intros Hpos [T | Hfit].
    + unfold at24_num_addresses. rewrite T. lia.
    + destruct (has_flag c AT24_FLAG_TAKE8ADDR) eqn:T.
      * unfold at24_num_addresses. rewrite T. lia.
      * specialize (C eq_refl Hfit). unfold is_ceil_div in C. nia.
Qed.

(** The 24c00 of the table (16 bytes, TAKE8ADDR) and the 24c02. *)
Lemma at24_num_addresses_spec_witness :
  at24_num_addresses (mk_chip 16 1 AT24_FLAG_TAKE8ADDR) = 8 /\
  is_ceil_div 256 256 (at24_num_addresses (mk_chip 256 1 0)).
Proof.
  split.
  - apply (at24_num_addresses_spec (mk_chip 16 1 AT24_FLAG_TAKE8ADDR)).
    + decide_bounds.
    + reflexivity.
  - apply (at24_num_addresses_spec (mk_chip 256 1 0)).
    + decide_bounds.
    + reflexivity.
    + vm_compute. discriminate.
Defined.

(** C6 as stated fails: a [byte_len] of 2^32 - 1 without flags fits the
    [u32] field, is accepted by [at24_probe], and gets zero addresses
    where the ceiling is 2^24. *)
Lemma at24_num_addresses_wraps :
  let c := mk_chip 4294967295 1 0 in
  chip_wf c /\ has_flag c AT24_FLAG_TAKE8ADDR = false /\ 0 < byte_len c /\
  (exists d, at24_probe 128 (mk_client (Some c) None full_i2c 80 0) 0 = inr d
             /\ chip d = c /\ num_addresses d = 0) /\
  at24_num_addresses c = 0 /\
  is_ceil_div (byte_len c) 256 16777216 /\
  ~ 1 <= at24_num_addresses c.
Proof.
  cbv zeta.
  split; [decide_bounds|].
  split; [reflexivity|]. split; [simpl; lia|].
  split; [eexists; split; [vm_compute; reflexivity|split; reflexivity]|].
  split; [reflexivity|].
  split; [unfold is_ceil_div; simpl; lia|].
  vm_compute. intros H. now apply H.
Qed.

(** ** Geometry decoding *)

Lemma BIT_pow2 n : 0 <= n -> BIT n = 2 ^ n.
Proof. intros H. unfold BIT. now rewrite Z.shiftl_1_l. Qed.

Lemma lor_readonly_u8 x :
  u8 (Z.lor (Z.land x 255) AT24_FLAG_READONLY)
  = Z.lor (Z.land x 255) AT24_FLAG_READONLY.
Proof.
  unfold u8. rewrite <- land_255. rewrite Z.land_lor_distr_l.
  rewrite <- Z.land_assoc. reflexivity.
Qed.

Lemma decode_byte_len magic :
  u32 (BIT (Z.land magic (AT24_BITMASK AT24_SIZE_BYTELEN)))
  = 2 ^ Z.land magic 31.
Proof.
  change (AT24_BITMASK AT24_SIZE_BYTELEN) with 31.
  pose proof (Z.mod_pos_bound magic (2 ^ 5) ltac:(lia)) as B.
  rewrite <- land_31 in B.
  rewrite BIT_pow2 by lia. apply u32_small. split; [lia|].
  apply Z.pow_lt_mono_r; lia.
Qed.

Lemma decode_flags magic :
  u8 (Z.land (Z.shiftr magic AT24_SIZE_BYTELEN) (AT24_BITMASK AT24_SIZE_FLAGS))
  = Z.land (Z.shiftr magic 5) 255.
Proof.
  change (AT24_BITMASK AT24_SIZE_FLAGS) with 255.
  change AT24_SIZE_BYTELEN with 5.
  rewrite land_255. apply u8_small. apply Z.mod_pos_bound. lia.
Qed.

(** C7, amended.  Without platform data, a nonzero table magic decodes to
    [byte_len = 2^(magic & 31)] (a 5-bit length field) and to the flags
    [(magic >> 5) & 0xff], to which the READONLY bit is added when the
    devicetree node has the "read-only" property; [page_size] is 1 unless
    the node has a "pagesize" property, whose value it then takes
    (narrowed to the 16 bits of the field).  With a zero magic and no
    platform data [at24_probe] fails with [-ENODEV].  The geometry
    depends on the magic and the node alone: two probes that agree on
    them build instances of the same geometry. *)
Theorem at24_resolve_chip_spec (node : option device_node) (magic : Z) :
  magic <> 0 ->
  (exists c,
     at24_resolve_chip None node magic = inr c /\
     byte_len c = 2 ^ Z.land magic (2 ^ 5 - 1) /\
     flags c =
       (let fl := Z.land (Z.shiftr magic 5) (2 ^ 8 - 1) in
        match node with
        | Some n => if of_read_only n then Z.lor fl AT24_FLAG_READONLY else fl
        | None => fl
        end) /\
     page_size c =
       match node with
       | Some (mk_node _ (Some val)) => u16 val
       | _ => 1
       end) /\
  (forall io_limit cl,
     platform_data cl = None -> at24_probe io_limit cl 0 = inl (- ENODEV)) /\
  (forall io1 io2 cl1 cl2 d1 d2,
     platform_data cl1 = None -> platform_data cl2 = None ->
     of_node cl1 = node -> of_node cl2 = node ->
     at24_probe io1 cl1 magic = inr d1 ->
     at24_probe io2 cl2 magic = inr d2 ->
     chip d1 = chip d2 /\ num_addresses d1 = num_addresses d2 /\
     bin_size d1 = bin_size d2).
Proof.
  intros Hm. split; [|split].
  - unfold at24_resolve_chip.
    destruct (Z.eqb_spec magic 0) as [|_]; [contradiction|].
    rewrite decode_byte_len, decode_flags.
    change (2 ^ 5 - 1) with 31. change (2 ^ 8 - 1) with 255. cbv zeta.
    destruct node as [[[|] [val|]]|]; simpl;
      eexists; (split; [reflexivity|]); simpl;
      rewrite ?lor_readonly_u8; auto.
  - intros io cl Hpd. unfold at24_probe, at24_resolve_chip.
    now rewrite Hpd.
  - intros io1 io2 cl1 cl2 d1 d2 P1 P2 N1 N2 E1 E2.
    unfold at24_probe in E1, E2. rewrite P1, N1 in E1. rewrite P2, N2 in E2.
    destruct (at24_resolve_chip None node magic) as [e|c]; [discriminate|].
    destruct (page_size c =? 0); [discriminate|].
    destruct (at24_use_smbus (adapter cl1)); [discriminate|].
    destruct (at24_use_smbus (adapter cl2)); [discriminate|].
    destruct (negb (kzalloc_at24 cl1)); [discriminate|].
    destruct (negb (kzalloc_at24 cl2)); [discriminate|].
    destruct (_ && negb (kzalloc_writebuf cl1)); [discriminate|].
    destruct (_ && negb (kzalloc_writebuf cl2)); [discriminate|].
    destruct (at24_new_dummies (adapter cl1) _ _ _); [|discriminate].
    destruct (at24_new_dummies (adapter cl2) _ _ _); [|discriminate].
    destruct (sysfs_create_err cl1 =? 0); [|discriminate].
    destruct (sysfs_create_err cl2 =? 0); [|discriminate].
    injection E1 as <-. injection E2 as <-. simpl. auto.
Qed.

(** The table entry of the 24c02 (2048 bits, no flags) decodes to 256
    bytes, no flags and a page of one byte. *)
Lemma at24_resolve_chip_spec_witness :
  exists c,
    at24_resolve_chip None None (AT24_DEVICE_MAGIC (2048 / 8) 0) = inr c /\
    byte_len c = 256 /\ flags c = 0 /\ page_size c = 1.
Proof.
  destruct (at24_resolve_chip_spec None (AT24_DEVICE_MAGIC (2048 / 8) 0))
    as [(c & E & L & F & P) _].
  - vm_compute. discriminate.
  - exists c. split; [exact E|]. split; [exact L|]. split; [exact F|exact P].
Defined.

(** C7 as stated fails on the flags: the 24c128 entry of the table
    decoded for a client whose devicetree node has "read-only" gets
    the flags ADDR16 | READONLY, not [(magic >> 5) & 0xff] = ADDR16. *)
Lemma at24_resolve_chip_read_only_node :
  let magic := AT24_DEVICE_MAGIC (131072 / 8) AT24_FLAG_ADDR16 in
  driver_data "24c128-delta" delta_at24_ids = Some magic /\
  magic <> 0 /\
  Z.land (Z.shiftr magic 5) (2 ^ 8 - 1) = 128 /\
  exists c,
    at24_resolve_chip None (Some (mk_node true None)) magic = inr c /\
    flags c = 192 /\
    flags c <> Z.land (Z.shiftr magic 5) (2 ^ 8 - 1).
Proof.
  cbv zeta. split; [reflexivity|]. split; [vm_compute; discriminate|].
  split; [reflexivity|].
  eexists. split; [vm_compute; reflexivity|].
  split; [reflexivity|]. vm_compute. discriminate.
Qed.

(** ** Buffers *)

Lemma store_length buf pos v : List.length (store buf pos v) = List.length buf.
Proof.
  revert pos. induction buf as [|hd tl IH]; intros [|p]; simpl; auto.
Qed.

Lemma store_other buf pos v i :
  i <> pos -> nth_error (store buf pos v) i = nth_error buf i.
Proof.
  revert pos i.
  induction buf as [|hd tl IH]; intros [|p] [|i] H; simpl;
    try reflexivity; try contradiction.
  apply IH. congruence.
Qed.

Lemma repeat_zero_nth n i :
  (i < n)%nat -> nth_error (repeat 0 n) i = Some 0.
Proof.
  revert i. induction n as [|n IH]; intros [|i] H; simpl; try lia; auto.
  apply IH. lia.
Qed.

(** ** The transfer engine *)

Section Engine.

Context {D : Type}.
Variable bus : Bus D.
Variables io_limit write_timeout : Z.
Variable msecs_to_jiffies : Z -> Z.

(** One turn of the read loop. *)
Lemma eeprom_read_retry_turn fuel cl offset count timeout buf pos s :
  eeprom_read_retry bus (S fuel) cl offset count timeout buf pos s =
  let x1 := bus_write_byte_data bus (jiffies s) cl
              (Z.land (Z.shiftr offset 8) 255) (Z.land offset 255) (dev s) in
  let s1 := mk_sys (jiffies s + Z.of_nat (x_ticks x1)) (x_dev x1) (locked s)
              (EvWriteByteData cl (Z.land (Z.shiftr offset 8) 255)
                 (Z.land offset 255) (s32 (x_status x1)) :: log s) in
  let x2 := bus_read_byte bus (jiffies s1) cl (dev s1) in
  let status := s32 (x_status x2) in
  let s2 := mk_sys (jiffies s1 + Z.of_nat (x_ticks x2)) (x_dev x2) (locked s)
              (EvReadByte cl status :: log s1) in
  let buf1 := if 0 <=? status then store buf pos (u8 status) else buf in
  if u64 (if 0 <=? status then count else status) =? count
  then Some ((count, buf1), s2)
  else
    let s3 := mk_sys (jiffies s2 + 1
                        + Z.of_nat (bus_oversleep bus (jiffies s2) (dev s2)))
                (dev s2) (locked s) (EvSleep 1 :: log s2) in
    if time_before (jiffies s) timeout
    then eeprom_read_retry bus fuel cl offset count timeout buf1 pos s3
    else Some ((- ETIMEDOUT, buf1), s3).
Proof.
  cbv zeta. cbn [eeprom_read_retry].
  unfold bind, get_jiffies, i2c_smbus_write_byte_data, i2c_smbus_read_byte,
    run_xfer, msleep, ret.
  cbn [jiffies dev locked log].
  destruct (u64 _ =? count); [reflexivity|].
  destruct (time_before (jiffies s) timeout); reflexivity.
Qed.

(** One turn of the write loop. *)
Lemma eeprom_write_retry_turn fuel cl offset count timeout b s :
  eeprom_write_retry bus (S fuel) cl offset count timeout b s =
  let word := u16 (Z.lor (Z.land offset 255) (s8 b)) in
  let x := bus_write_word_data bus (jiffies s) cl
             (Z.land (Z.shiftr offset 8) 255) word (dev s) in
  let st := s32 (x_status x) in
  let s1 := mk_sys (jiffies s + Z.of_nat (x_ticks x)) (x_dev x) (locked s)
              (EvWriteWordData cl (Z.land (Z.shiftr offset 8) 255) word st
                 :: log s) in
  if u64 (if st =? 0 then count else st) =? count
  then Some (count, s1)
  else
    let s2 := mk_sys (jiffies s1 + 1
                        + Z.of_nat (bus_oversleep bus (jiffies s1) (dev s1)))
                (dev s1) (locked s) (EvSleep 1 :: log s1) in
    if time_before (jiffies s) timeout
    then eeprom_write_retry bus fuel cl offset count timeout b s2
    else Some (- ETIMEDOUT, s2).
Proof.
  cbv zeta. cbn [eeprom_write_retry].
  unfold bind, get_jiffies, i2c_smbus_write_word_data, run_xfer, msleep, ret.
  cbn [jiffies dev locked log].
  destruct (u64 _ =? count); [reflexivity|].
  destruct (time_before (jiffies s) timeout); reflexivity.
Qed.

Lemma s32_range x : - 2 ^ 31 <= s32 x < 2 ^ 31.
Proof.
  unfold s32. pose proof (u32_range x) as R. cbv zeta.
  destruct (Z.ltb_spec (u32 x) (2 ^ 31)); lia.
Qed.

(** A negative status never compares equal to a count. *)
Lemma u64_status_ne st count :
  - 2 ^ 31 <= st < 0 -> 0 <= count < 2 ^ 63 -> (u64 st =? count) = false.
Proof.
  intros Hs Hc. apply Z.eqb_neq. pose proof (u64_neg st ltac:(lia)). lia.
Qed.

(** The fuel of the read loop is enough, and the loop ends in one of two
    ways: the byte read is stored at [buf[pos]] and [count] returned, or
    the buffer is as it was and [-ETIMEDOUT] returned. *)
Lemma eeprom_read_retry_result fuel cl offset count timeout buf pos s :
  0 <= count < 2 ^ 63 ->
  fuel <> O ->
  timeout - jiffies s < Z.of_nat fuel ->
  exists st buf' s',
    eeprom_read_retry bus fuel cl offset count timeout buf pos s
    = Some ((st, buf'), s') /\
    ((st = count /\ exists v, buf' = store buf pos v)
     \/ (st = - ETIMEDOUT /\ buf' = buf)) /\
    locked s' = locked s.
Proof.
  intros Hc. revert s.
  induction fuel as [|fuel IH]; intros s Hf Ht; [contradiction|].
  rewrite eeprom_read_retry_turn. cbv zeta.
  set (x1 := bus_write_byte_data bus _ _ _ _ _).
  set (x2 := bus_read_byte bus _ _ _).
  pose proof (s32_range (x_status x2)) as R.
  destruct (Z.leb_spec 0 (s32 (x_status x2))) as [Hs|Hs].
  - rewrite u64_small, Z.eqb_refl by lia.
    do 3 eexists. split; [reflexivity|]. split; [|reflexivity].
    left. split; [reflexivity|]. eexists. reflexivity.
  - rewrite u64_status_ne by lia.
    unfold time_before. destruct (Z.ltb_spec (jiffies s) timeout) as [Hb|Hb].
    + match goal with
      | |- context [eeprom_read_retry bus fuel _ _ _ _ _ _ ?s3] =>
          destruct (IH s3) as (st & buf' & s' & E & R' & L)
      end.
      * destruct fuel; [lia|discriminate].
      * cbn [jiffies]. lia.
      * exists st, buf', s'. split; [exact E|]. split; [exact R'|exact L].
    + do 3 eexists. split; [reflexivity|]. split; [|reflexivity].
      right. split; reflexivity.
Qed.

(** The same for the write loop. *)
Lemma eeprom_write_retry_result fuel cl offset count timeout b s :
  0 <= count < 2 ^ 63 ->
  fuel <> O ->
  timeout - jiffies s < Z.of_nat fuel ->
  exists st s',
    eeprom_write_retry bus fuel cl offset count timeout b s = Some (st, s') /\
    (st = count \/ st = - ETIMEDOUT) /\
    locked s' = locked s.
Proof.
  intros Hc. revert s.
  induction fuel as [|fuel IH]; intros s Hf Ht; [contradiction|].
  rewrite eeprom_write_retry_turn. cbv zeta.
  set (x := bus_write_word_data bus _ _ _ _ _).
  pose proof (s32_range (x_status x)) as R.
  destruct (Z.eqb_spec (s32 (x_status x)) 0) as [Hs|Hs].
  - rewrite u64_small, Z.eqb_refl by lia.
    do 2 eexists. split; [reflexivity|]. split; [now left|reflexivity].
  - destruct (Z.eqb_spec (u64 (s32 (x_status x))) count) as [He|He].
    + do 2 eexists. split; [reflexivity|]. split; [now left|reflexivity].
    + unfold time_before. destruct (Z.ltb_spec (jiffies s) timeout) as [Hb|Hb].
      * match goal with
        | |- context [eeprom_write_retry bus fuel _ _ _ _ _ ?s2] =>
            destruct (IH s2) as (st & s' & E & R' & L)
        end.
        -- destruct fuel; [lia|discriminate].
        -- cbn [jiffies]. lia.
        -- exists st, s'. split; [exact E|]. split; [exact R'|exact L].
      * do 2 eexists. split; [reflexivity|]. split; [now right|reflexivity].
Qed.

Lemma retry_fuel_enough (now : Z) :
  retry_fuel write_timeout msecs_to_jiffies <> O /\
  now + msecs_to_jiffies write_timeout - now
  < Z.of_nat (retry_fuel write_timeout msecs_to_jiffies).
Proof. unfold retry_fuel. split; [discriminate|lia]. Qed.

(** [at24_eeprom_read] always returns: either 1, with the byte stored at
    [buf[pos]], or [-ETIMEDOUT], with the buffer untouched. *)
Lemma at24_eeprom_read_result at24 buf pos offset count s :
  exists st buf' s',
    at24_eeprom_read bus io_limit write_timeout msecs_to_jiffies at24 buf pos
      offset count s = Some ((st, buf'), s') /\
    ((st = 1 /\ exists v, buf' = store buf pos v)
     \/ (st = - ETIMEDOUT /\ buf' = buf)) /\
    locked s' = locked s.
Proof.
  unfold at24_eeprom_read.
  destruct (at24_translate_offset (chip at24) offset) as [cl o].
  unfold bind, get_jiffies.
  destruct (retry_fuel_enough (jiffies s)) as [F T].
  apply eeprom_read_retry_result; [lia|exact F|exact T].
Qed.

(** *** The page clamp of [at24_eeprom_write] *)

Lemma roundup_next_page o page :
  0 <= o < 2 ^ 16 -> 0 < page < 2 ^ 16 ->
  roundup (u32 (o + 1)) page = next_page_boundary o page.
Proof.
  intros Ho Hp. unfold roundup, next_page_boundary.
  rewrite (u32_small (o + 1)) by lia.
  replace (o + 1 + (page - 1)) with (o + 1 * page) by ring.
  rewrite (u32_small (o + 1 * page)) by lia.
  rewrite Z.div_add by lia.
  apply u32_small.
  pose proof (Z.div_mod o page ltac:(lia)) as E.
  pose proof (Z.mod_pos_bound o page ltac:(lia)) as B.
  nia.
Qed.

(** The next page boundary is the one multiple of the page size in
    [(o, o + page]]. *)
Lemma next_page_boundary_spec o page :
  0 <= o -> 0 < page ->
  next_page_boundary o page mod page = 0 /\
  o < next_page_boundary o page <= o + page.
Proof.
  intros Ho Hp. unfold next_page_boundary. split.
  - apply Z.mod_mul. lia.
  - pose proof (Z.div_mod o page ltac:(lia)) as E.
    pose proof (Z.mod_pos_bound o page ltac:(lia)) as B.
    nia.
Qed.

Lemma at24_write_count_eq at24 o count :
  at24_wf at24 -> 0 <= o < 2 ^ 16 -> 0 <= count < 2 ^ 64 ->
  at24_write_count at24 o count
  = (let c1 := Z.min count (write_max at24) in
     let next_page := next_page_boundary o (page_size (chip at24)) in
     if o + c1 >? next_page then next_page - o else c1).
Proof.
  intros ((_ & Hps & _) & Hp & Hwm & _) Ho Hc.
  unfold at24_write_count. cbv zeta.
  rewrite roundup_next_page by lia.
  pose proof (next_page_boundary_spec o (page_size (chip at24))
                ltac:(lia) Hp) as [_ B].
  assert (E : (if count >? write_max at24 then write_max at24 else count)
              = Z.min count (write_max at24)).
  { destruct (Z.gtb_spec count (write_max at24)); lia. }
  rewrite E. rewrite u64_small by lia.
  destruct (Z.gtb_spec (o + Z.min count (write_max at24))
              (next_page_boundary o (page_size (chip at24)))); [|reflexivity].
  apply u32_small. lia.
Qed.

Lemma at24_write_count_range at24 o count :
  at24_wf at24 -> 0 <= o < 2 ^ 16 -> 0 <= count < 2 ^ 64 ->
  0 <= at24_write_count at24 o count <= count /\
  at24_write_count at24 o count <= write_max at24.
Proof.
  intros W Ho Hc. rewrite at24_write_count_eq by assumption. cbv zeta.
  destruct W as ((_ & Hps & _) & Hp & Hwm & _).
  pose proof (next_page_boundary_spec o (page_size (chip at24))
                ltac:(lia) Hp) as [_ B].
  destruct (Z.gtb_spec (o + Z.min count (write_max at24))
              (next_page_boundary o (page_size (chip at24)))); lia.
Qed.

Lemma in_chip_offset_range c offset :
  0 <= snd (at24_translate_offset c offset) < 2 ^ 16.
Proof.
  rewrite at24_translate_offset_eq. simpl.
  pose proof (address_span_pos c). pose proof (address_span_le c).
  pose proof (Z.mod_pos_bound offset (address_span c)). lia.
Qed.

(** [at24_eeprom_write] always returns: the clamped count, or
    [-ETIMEDOUT]. *)
Lemma at24_eeprom_write_result at24 buf pos offset count s :
  at24_wf at24 -> 0 <= count < 2 ^ 64 ->
  exists st s',
    at24_eeprom_write bus write_timeout msecs_to_jiffies at24 buf pos
      offset count s = Some (st, s') /\
    (st = at24_write_count at24 (snd (at24_translate_offset (chip at24) offset))
            count
     \/ st = - ETIMEDOUT) /\
    locked s' = locked s.
Proof.
  intros W Hc. unfold at24_eeprom_write.
  pose proof (in_chip_offset_range (chip at24) offset) as Ho.
  destruct (at24_translate_offset (chip at24) offset) as [cl o].
  cbn [snd] in *.
  unfold bind, get_jiffies.
  destruct (retry_fuel_enough (jiffies s)) as [F T].
  pose proof (at24_write_count_range at24 o count W Ho Hc) as R.
  destruct W as (_ & _ & Hwm & _).
  apply eeprom_write_retry_result; [lia|exact F|exact T].
Qed.

(** ** The range accessor *)

(** One turn of the loop of [at24_read]. *)
Lemma at24_read_loop_turn fuel at24 buf pos off count retval s :
  count <> 0 ->
  at24_read_loop bus io_limit write_timeout msecs_to_jiffies (S fuel) at24 buf
    pos off count retval s =
  match at24_eeprom_read bus io_limit write_timeout msecs_to_jiffies at24 buf
          pos (u32 off) count s with
  | Some ((status, buf1), s1) =>
      if status <=? 0
      then Some ((if retval =? 0 then status else retval, buf1), s1)
      else at24_read_loop bus io_limit write_timeout msecs_to_jiffies fuel
             at24 buf1 (pos + Z.to_nat status) (off + status)
             (u64 (count - status)) (retval + status) s1
  | None => None
  end.
Proof.
  intros Hc. cbn [at24_read_loop].
  destruct (Z.eqb_spec count 0) as [|_]; [contradiction|].
  unfold bind.
  destruct (at24_eeprom_read _ _ _ _ _ _ _ _ _ _) as [[[status buf1] s1]|];
    [|reflexivity].
  destruct (status <=? 0); reflexivity.
Qed.

(** One turn of the loop of [at24_write]. *)
Lemma at24_write_loop_turn fuel at24 buf pos off count retval s :
  count <> 0 ->
  at24_write_loop bus write_timeout msecs_to_jiffies (S fuel) at24 buf pos off
    count retval s =
  match at24_eeprom_write bus write_timeout msecs_to_jiffies at24 buf pos
          (u32 off) 1 s with
  | Some (status, s1) =>
      if status <=? 0
      then Some (if retval =? 0 then status else retval, s1)
      else at24_write_loop bus write_timeout msecs_to_jiffies fuel at24 buf
             (pos + Z.to_nat status) (off + status) (u64 (count - status))
             (retval + status) s1
  | None => None
  end.
Proof.
  intros Hc. cbn [at24_write_loop].
  destruct (Z.eqb_spec count 0) as [|_]; [contradiction|].
  unfold bind.
  destruct (at24_eeprom_write _ _ _ _ _ _ _ _ _) as [[status s1]|];
    [|reflexivity].
  destruct (status <=? 0); reflexivity.
Qed.

(** The loop of [at24_read] started with [count] bytes to go and
    [retval] bytes moved: its fuel is enough; it moves [k] further bytes,
    all of them when [k = count]; it returns the bytes moved in all, or
    [-ETIMEDOUT] when it stops short with none moved; and it leaves the
    buffer from index [pos + k] on as it found it. *)
Lemma at24_read_loop_result fuel at24 buf pos off count retval s :
  0 <= count < 2 ^ 64 -> count <= Z.of_nat fuel -> 0 <= retval ->
  exists r buf' s' k,
    at24_read_loop bus io_limit write_timeout msecs_to_jiffies fuel at24 buf
      pos off count retval s = Some ((r, buf'), s') /\
    0 <= k <= count /\
    r = (if (k <? count) && (retval + k =? 0) then - ETIMEDOUT
         else retval + k) /\
    List.length buf' = List.length buf /\
    (forall i, (pos + Z.to_nat k <= i)%nat ->
               nth_error buf' i = nth_error buf i) /\
    locked s' = locked s.
Proof.
  revert buf pos off count retval s.
  induction fuel as [|fuel IH]; intros buf pos off count retval s Hc Hf Hr.
  - assert (count = 0) by lia. subst count.
    exists retval, buf, s, 0. cbn. repeat split; auto; lia.
  - destruct (Z.eq_dec count 0) as [->|Hnz].
    + exists retval, buf, s, 0. cbn. repeat split; auto; lia.
    + rewrite at24_read_loop_turn by exact Hnz.
      destruct (at24_eeprom_read_result at24 buf pos (u32 off) count s)
        as (st & buf1 & s1 & E & [[-> [v ->]]|[-> ->]] & L); rewrite E.
      * change (1 <=? 0) with false. cbv iota.
        destruct (IH (store buf pos v) (pos + Z.to_nat 1)%nat (off + 1)
                     (u64 (count - 1)) (retval + 1) s1)
          as (r & buf' & s' & k & E' & Hk & Hr' & Hl & Hi & L');
          try (rewrite u64_small by lia); try lia.
        rewrite u64_small in E', Hk, Hr' by lia.
        exists r, buf', s', (k + 1). split; [exact E'|].
        split; [lia|]. split; [|split; [|split]].
        -- rewrite Hr'.
           replace (retval + (k + 1)) with (retval + 1 + k) by ring.
           replace (k + 1 <? count) with (k <? count - 1)
             by (destruct (Z.ltb_spec k (count - 1)),
                          (Z.ltb_spec (k + 1) count); lia).
           reflexivity.
        -- now rewrite Hl, store_length.
        -- intros i Hi'. rewrite Hi by lia. apply store_other. lia.
        -- congruence.
      * change (- ETIMEDOUT <=? 0) with true. cbv iota.
        exists (if retval =? 0 then - ETIMEDOUT else retval), buf, s1, 0.
        split; [reflexivity|]. split; [lia|]. split; [|auto].
        rewrite Z.add_0_r.
        destruct (Z.ltb_spec 0 count); [|lia].
        destruct (retval =? 0); reflexivity.
Qed.

(** The same for the loop of [at24_write]; a transfer that accepts no
    byte (a device without write support has [write_max = 0]) stops the
    loop like a failed one. *)
Lemma at24_write_loop_result fuel at24 buf pos off count retval s :
  at24_wf at24 ->
  0 <= count < 2 ^ 64 -> count <= Z.of_nat fuel -> 0 <= retval ->
  exists r s',
    at24_write_loop bus write_timeout msecs_to_jiffies fuel at24 buf pos off
      count retval s = Some (r, s') /\
    (r = - ETIMEDOUT \/ 0 <= r <= retval + count) /\
    locked s' = locked s.
Proof.
  intros W. revert pos off count retval s.
  induction fuel as [|fuel IH]; intros pos off count retval s Hc Hf Hr.
  - assert (count = 0) by lia. subst count.
    exists retval, s. cbn. repeat split; auto. right. lia.
  - destruct (Z.eq_dec count 0) as [->|Hnz].
    + exists retval, s. cbn. repeat split; auto. right. lia.
    + rewrite at24_write_loop_turn by exact Hnz.
      destruct (at24_eeprom_write_result at24 buf pos (u32 off) 1 s W
                  ltac:(lia)) as (st & s1 & E & R & L).
      rewrite E.
      pose proof (at24_write_count_range at24
                    (snd (at24_translate_offset (chip at24) (u32 off))) 1 W
                    (in_chip_offset_range _ _) ltac:(lia)) as [B _].
      destruct (Z.leb_spec st 0) as [Hle|Hgt].
      * exists (if retval =? 0 then st else retval), s1.
        split; [reflexivity|]. split; [|exact L].
        destruct (Z.eqb_spec retval 0); destruct R as [R|R]; subst; lia.
      * assert (st = 1) by (destruct R as [R|R]; [lia|subst st; discriminate]).
        subst st.
        destruct (IH (pos + Z.to_nat 1)%nat (off + 1) (u64 (count - 1))
                     (retval + 1) s1)
          as (r & s' & E' & R' & L');
          try (rewrite u64_small by lia); try lia.
        rewrite u64_small in E' by lia. rewrite ?u64_small in R' by lia.
        exists r, s'. split; [exact E'|]. split; [lia|congruence].
Qed.

Lemma at24_read_unfold at24 off count s :
  count <> 0 ->
  at24_read bus io_limit write_timeout msecs_to_jiffies at24 off count s =
  match at24_read_loop bus io_limit write_timeout msecs_to_jiffies
          (Z.to_nat count) at24 (repeat 0 (Z.to_nat count)) 0 off count 0
          (mk_sys (jiffies s) (dev s) true (EvLock :: log s)) with
  | Some (r, s1) => Some (r, unlocked s1)
  | None => None
  end.
Proof.
  intros Hc. unfold at24_read.
  destruct (Z.eqb_spec count 0) as [|_]; [contradiction|].
  unfold bind, mutex_lock, mutex_unlock, ret, unlocked.
  destruct (at24_read_loop _ _ _ _ _ _ _ _ _ _ _ _) as [[r s1]|]; reflexivity.
Qed.

Lemma at24_write_unfold at24 buf off count s :
  count <> 0 ->
  at24_write bus write_timeout msecs_to_jiffies at24 buf off count s =
  match at24_write_loop bus write_timeout msecs_to_jiffies (Z.to_nat count)
          at24 buf 0 off count 0
          (mk_sys (jiffies s) (dev s) true (EvLock :: log s)) with
  | Some (r, s1) => Some (r, unlocked s1)
  | None => None
  end.
Proof.
  intros Hc. unfold at24_write.
  destruct (Z.eqb_spec count 0) as [|_]; [contradiction|].
  unfold bind, mutex_lock, mutex_unlock, ret, unlocked.
  destruct (at24_write_loop _ _ _ _ _ _ _ _ _ _ _) as [[r s1]|]; reflexivity.
Qed.

(** [at24_write] always returns, with the lock released. *)
Lemma at24_write_result at24 buf off count s :
  at24_wf at24 -> 0 < count < 2 ^ 64 ->
  exists r s',
    at24_write bus write_timeout msecs_to_jiffies at24 buf off count s
    = Some (r, s') /\
    (r = - ETIMEDOUT \/ 0 <= r <= count) /\
    locked s' = false.
Proof.
  intros W Hc. rewrite at24_write_unfold by lia.
  destruct (at24_write_loop_result (Z.to_nat count) at24 buf 0 off count 0
              (mk_sys (jiffies s) (dev s) true (EvLock :: log s)) W
              ltac:(lia) ltac:(lia) ltac:(lia)) as (r & s1 & E & R & L).
  rewrite E. exists r, (unlocked s1). split; [reflexivity|].
  split; [lia|reflexivity].
Qed.

(** ** The bound check of the sysfs write callback *)

(** C8.  [at24_bin_write] at an offset at or past [bin.size] (the
    [byte_len] of the chip) returns [-EFBIG] and leaves the system as it
    was: no lock taken, no bus transaction.  At offset [bin.size - 1]
    with one byte the check lets the request through to [at24_write],
    which returns something other than [-EFBIG]. *)
Theorem at24_bin_write_bound at24 buf :
  at24_wf at24 ->
  (forall off count s,
     bin_size at24 <= off <= LOFF_MAX ->
     at24_bin_write bus write_timeout msecs_to_jiffies at24 buf off count s
     = Some (- EFBIG, s)) /\
  (forall s,
     0 < bin_size at24 ->
     at24_bin_write bus write_timeout msecs_to_jiffies at24 buf
       (bin_size at24 - 1) 1 s
     = at24_write bus write_timeout msecs_to_jiffies at24 buf
         (bin_size at24 - 1) 1 s /\
     exists r s',
       at24_bin_write bus write_timeout msecs_to_jiffies at24 buf
         (bin_size at24 - 1) 1 s = Some (r, s') /\
       r <> - EFBIG).
Proof.
  intros W.
  assert (Hsz : 0 <= bin_size at24 < 2 ^ 32).
  { destruct W as ((Hlen & _) & _ & _ & ->). exact Hlen. }
  split.
  - intros off count s Hoff. unfold at24_bin_write, LOFF_MAX in *.
    rewrite u64_small by lia.
    destruct (Z.geb_spec off (bin_size at24)); [reflexivity|lia].
  - intros s Hpos.
    assert (E : at24_bin_write bus write_timeout msecs_to_jiffies at24 buf
                  (bin_size at24 - 1) 1 s
                = at24_write bus write_timeout msecs_to_jiffies at24 buf
                    (bin_size at24 - 1) 1 s).
    { unfold at24_bin_write. rewrite u64_small by lia.
      destruct (Z.geb_spec (bin_size at24 - 1) (bin_size at24));
        [lia|reflexivity]. }
    split; [exact E|]. rewrite E.
    destruct (at24_write_result at24 buf (bin_size at24 - 1) 1 s W
                ltac:(lia)) as (r & s' & Ew & R & _).
    exists r, s'. split; [exact Ew|].
    destruct R as [->|R]; [discriminate|]. unfold EFBIG. lia.
Qed.

(** ** Partial progress *)

(** After successful calls only, the loop of [at24_read] stands where
    the bytes moved say. *)
Lemma read_moved_loop at24 off count s0 moved buf s :
  0 < count < 2 ^ 64 ->
  read_moved bus io_limit write_timeout msecs_to_jiffies at24 off count s0
    moved buf s ->
  0 <= moved <= count /\
  at24_read_loop bus io_limit write_timeout msecs_to_jiffies (Z.to_nat count)
    at24 (repeat 0 (Z.to_nat count)) 0 off count 0
    (mk_sys (jiffies s0) (dev s0) true (EvLock :: log s0))
  = at24_read_loop bus io_limit write_timeout msecs_to_jiffies
      (Z.to_nat (count - moved)) at24 buf (Z.to_nat moved) (off + moved)
      (count - moved) moved s.
Proof.
  intros Hc H.
  induction H as [|moved buf s status buf1 s1 H [Hm IH] Hlt E Hpos].
  - split; [lia|]. now rewrite Z.sub_0_r, Z.add_0_r.
  - assert (status = 1).
    { destruct (at24_eeprom_read_result at24 buf (Z.to_nat moved)
                  (u32 (off + moved)) (count - moved) s)
        as (st & b & s' & E' & [[-> _]|[-> _]] & _);
        rewrite E in E'; injection E' as -> _ _;
        [reflexivity|discriminate]. }
    subst status. split; [lia|]. rewrite IH.
    replace (Z.to_nat (count - moved))
      with (S (Z.to_nat (count - (moved + 1)))) by lia.
    rewrite at24_read_loop_turn by lia. rewrite E.
    change (1 <=? 0) with false. cbv iota.
    rewrite u64_small by lia.
    replace (Z.to_nat moved + Z.to_nat 1)%nat with (Z.to_nat (moved + 1))
      by lia.
    replace (off + moved + 1) with (off + (moved + 1)) by ring.
    replace (count - moved - 1) with (count - (moved + 1)) by ring.
    reflexivity.
Qed.

Lemma write_moved_loop at24 buf off count s0 moved s :
  at24_wf at24 -> 0 < count < 2 ^ 64 ->
  write_moved bus write_timeout msecs_to_jiffies at24 buf off count s0
    moved s ->
  0 <= moved <= count /\
  at24_write_loop bus write_timeout msecs_to_jiffies (Z.to_nat count) at24
    buf 0 off count 0 (mk_sys (jiffies s0) (dev s0) true (EvLock :: log s0))
  = at24_write_loop bus write_timeout msecs_to_jiffies
      (Z.to_nat (count - moved)) at24 buf (Z.to_nat moved) (off + moved)
      (count - moved) moved s.
Proof.
  intros W Hc H.
  induction H as [|moved s status s1 H [Hm IH] Hlt E Hpos].
  - split; [lia|]. now rewrite Z.sub_0_r, Z.add_0_r.
  - assert (status = 1).
    { destruct (at24_eeprom_write_result at24 buf (Z.to_nat moved)
                  (u32 (off + moved)) 1 s W ltac:(lia))
        as (st & s' & E' & R & _).
      rewrite E in E'. injection E' as -> _.
      pose proof (at24_write_count_range at24
                    (snd (at24_translate_offset (chip at24)
                            (u32 (off + moved)))) 1 W
                    (in_chip_offset_range _ _) ltac:(lia)) as [B _].
      destruct R as [R|R]; [lia|subst st; discriminate]. }
    subst status. split; [lia|]. rewrite IH.
    replace (Z.to_nat (count - moved))
      with (S (Z.to_nat (count - (moved + 1)))) by lia.
    rewrite at24_write_loop_turn by lia. rewrite E.
    change (1 <=? 0) with false. cbv iota.
    rewrite u64_small by lia.
    replace (Z.to_nat moved + Z.to_nat 1)%nat with (Z.to_nat (moved + 1))
      by lia.
    replace (off + moved + 1) with (off + (moved + 1)) by ring.
    replace (count - moved - 1) with (count - (moved + 1)) by ring.
    reflexivity.
Qed.

(** C5.  When, in a range read or a range write of [count > 0] bytes, the
    transfer-engine calls made so far succeeded and moved [moved] bytes,
    and the next call fails (its status is not positive), the range
    accessor releases the lock and returns that status if [moved] is
    zero, and the positive count [moved] otherwise. *)
Theorem at24_range_partial_progress at24 :
  (forall off count s0 moved buf s st buf1 s1,
     0 < count < 2 ^ 64 ->
     read_moved bus io_limit write_timeout msecs_to_jiffies at24 off count s0
       moved buf s ->
     moved < count ->
     at24_eeprom_read bus io_limit write_timeout msecs_to_jiffies at24 buf
       (Z.to_nat moved) (u32 (off + moved)) (count - moved) s
       = Some ((st, buf1), s1) ->
     st <= 0 ->
     0 <= moved /\
     at24_read bus io_limit write_timeout msecs_to_jiffies at24 off count s0
     = Some ((if moved =? 0 then st else moved, buf1), unlocked s1)) /\
  (forall buf off count s0 moved s st s1,
     at24_wf at24 ->
     0 < count < 2 ^ 64 ->
     write_moved bus write_timeout msecs_to_jiffies at24 buf off count s0
       moved s ->
     moved < count ->
     at24_eeprom_write bus write_timeout msecs_to_jiffies at24 buf
       (Z.to_nat moved) (u32 (off + moved)) 1 s = Some (st, s1) ->
     st <= 0 ->
     0 <= moved /\
     at24_write bus write_timeout msecs_to_jiffies at24 buf off count s0
     = Some (if moved =? 0 then st else moved, unlocked s1)).
Proof.
  split.
  - intros off count s0 moved buf s st buf1 s1 Hc H Hlt E Hst.
    destruct (read_moved_loop at24 off count s0 moved buf s Hc H) as [Hm L].
    split; [lia|].
    rewrite at24_read_unfold by lia. rewrite L.
    replace (Z.to_nat (count - moved))
      with (S (Z.to_nat (count - moved - 1))) by lia.
    rewrite at24_read_loop_turn by lia. rewrite E.
    destruct (Z.leb_spec st 0); [reflexivity|lia].
  - intros buf off count s0 moved s st s1 W Hc H Hlt E Hst.
    destruct (write_moved_loop at24 buf off count s0 moved s W Hc H)
      as [Hm L].
    split; [lia|].
    rewrite at24_write_unfold by lia. rewrite L.
    replace (Z.to_nat (count - moved))
      with (S (Z.to_nat (count - moved - 1))) by lia.
    rewrite at24_write_loop_turn by lia. rewrite E.
    destruct (Z.leb_spec st 0); [reflexivity|lia].
Qed.

(** ** What a write puts on the bus *)

(** The data byte reaches the bus only as part of the word
    [(offset & 0xFF) | buf[0]]. *)
Lemma eeprom_write_retry_word fuel cl offset count timeout b1 b2 s :
  Z.lor (Z.land offset 255) (s8 b1) = Z.lor (Z.land offset 255) (s8 b2) ->
  eeprom_write_retry bus fuel cl offset count timeout b1 s
  = eeprom_write_retry bus fuel cl offset count timeout b2 s.
Proof.
  intros Hw. revert s. induction fuel as [|fuel IH]; intros s; [reflexivity|].
  rewrite !eeprom_write_retry_turn. cbv zeta. rewrite Hw.
  destruct (u64 _ =? count); [reflexivity|].
  destruct (time_before (jiffies s) timeout); [apply IH|reflexivity].
Qed.

(** Writing the byte 0 and writing the byte 1 at offset 1 are the same
    run: the same transactions, the same final state. *)
Lemma at24_write_blind at24 s :
  at24_write bus write_timeout msecs_to_jiffies at24 [0] 1 1 s
  = at24_write bus write_timeout msecs_to_jiffies at24 [1] 1 1 s.
Proof.
  rewrite !at24_write_unfold by discriminate.
  change (Z.to_nat 1) with 1%nat.
  rewrite !at24_write_loop_turn by discriminate.
  assert (E : forall st,
             at24_eeprom_write bus write_timeout msecs_to_jiffies at24 [0] 0
               (u32 1) 1 st
             = at24_eeprom_write bus write_timeout msecs_to_jiffies at24 [1] 0
                 (u32 1) 1 st).
  { intros st. unfold at24_eeprom_write, at24_translate_offset.
    change (u32 1) with 1.
    destruct (has_flag (chip at24) AT24_FLAG_ADDR16);
      unfold bind, get_jiffies; now apply eeprom_write_retry_word. }
  rewrite E.
  destruct (at24_eeprom_write _ _ _ _ [1] _ _ _ _) as [[status s1]|];
    [|reflexivity].
  destruct (status <=? 0); reflexivity.
Qed.

(** Whatever the device and whatever its state, the round trip cannot
    hold both for the byte 0 and for the byte 1 at offset 1. *)
Lemma at24_round_trip_not_both at24 s :
  ~ (round_trip bus io_limit write_timeout msecs_to_jiffies at24 1 [0] s /\
     round_trip bus io_limit write_timeout msecs_to_jiffies at24 1 [1] s).
Proof.
  intros [(s1 & s2 & W0 & R0) (s1' & s2' & W1 & R1)].
  cbn [List.length Z.of_nat Pos.of_succ_nat] in *.
  rewrite at24_write_blind in W0. rewrite W0 in W1.
  injection W1 as <-. rewrite R0 in R1. discriminate.
Qed.

End Engine.

(** ** What [at24_probe] builds *)

Lemma at24_get_ofdata_wf node c : chip_wf c -> chip_wf (at24_get_ofdata node c).
Proof.
  intros (Hl & Hp & Hf). unfold at24_get_ofdata, chip_wf.
  assert (U : forall x, 0 <= u8 x < 2 ^ 8)
    by (intros x; unfold u8; apply Z.mod_pos_bound; lia).
  destruct node as [[[|] [val|]]|];
    cbn [of_read_only of_pagesize byte_len page_size flags];
    try pose proof (u16_range val);
    try pose proof (U (Z.lor (flags c) AT24_FLAG_READONLY));
    repeat split; lia.
Qed.

Lemma at24_resolve_chip_wf pd node magic c :
  (forall c0, pd = Some c0 -> chip_wf c0) ->
  at24_resolve_chip pd node magic = inr c -> chip_wf c.
Proof.
  intros Hpd E. unfold at24_resolve_chip in E.
  destruct pd as [c0|].
  - injection E as <-. now apply Hpd.
  - destruct (magic =? 0); [discriminate|]. injection E as <-.
    apply at24_get_ofdata_wf. rewrite decode_byte_len, decode_flags.
    unfold chip_wf. cbn [byte_len page_size flags].
    pose proof (Z.mod_pos_bound magic (2 ^ 5) ltac:(lia)) as B.
    rewrite <- land_31 in B.
    pose proof (Z.mod_pos_bound (Z.shiftr magic 5) (2 ^ 8) ltac:(lia)) as F.
    rewrite <- land_255 in F.
    repeat split; try lia.
    apply Z.pow_lt_mono_r; lia.
Qed.

(** An instance built by [at24_probe] is well formed, has the
    [num_addresses] of its chip and exposes [byte_len] bytes. *)
Lemma at24_probe_wf io_limit cl magic d :
  0 <= io_limit < 2 ^ 32 ->
  (forall c0, platform_data cl = Some c0 -> chip_wf c0) ->
  at24_probe io_limit cl magic = inr d ->
  at24_wf d /\ num_addresses d = at24_num_addresses (chip d).
Proof.
  intros Hio Hpd E. unfold at24_probe in E.
  destruct (at24_resolve_chip (platform_data cl) (of_node cl) magic)
    as [e|c] eqn:R; [discriminate|].
  pose proof (at24_resolve_chip_wf _ _ _ _ Hpd R) as W.
  destruct (Z.eqb_spec (page_size c) 0) as [|Hps]; [discriminate|].
  destruct (at24_use_smbus (adapter cl)) as [e|use]; [discriminate|].
  destruct (negb (kzalloc_at24 cl)); [discriminate|].
  destruct (_ && negb (kzalloc_writebuf cl)); [discriminate|].
  destruct (at24_new_dummies _ _ _ _); [|discriminate].
  destruct (sysfs_create_err cl =? 0); [|discriminate].
  injection E as <-. unfold at24_wf. cbn [chip write_max bin_size num_addresses].
  destruct W as (Hl & Hp & Hf).
  split; [|reflexivity]. split; [repeat split; lia|]. split; [lia|].
  split; [|reflexivity].
  destruct (_ && _); [|lia].
  destruct (Z.gtb_spec (page_size c) io_limit);
    destruct (_ && _); unfold I2C_SMBUS_BLOCK_MAX; lia.
Qed.

(** The two instances used below are the ones [at24_probe] builds for
    the "24c128-delta" entry of the table, and for the same chip with a
    64-byte page given as platform data. *)
Lemma at24_24c128_probed :
  exists magic,
    driver_data "24c128-delta" delta_at24_ids = Some magic /\
    at24_probe 128 (mk_client None None full_i2c 86 0) magic = inr at24_24c128
    /\ at24_probe 128
         (mk_client (Some (mk_chip 16384 64 128)) None full_i2c 86 0) magic
       = inr at24_24c128_paged.
Proof. eexists. split; [reflexivity|]. split; reflexivity. Qed.

(** ** Module start *)

Lemma rounddown_pow_of_two_spec n :
  0 < n ->
  let k := Z.log2 n in
  0 <= k /\ rounddown_pow_of_two n = 2 ^ k /\ 2 ^ k <= n < 2 ^ (k + 1).
Proof.
  intros Hn. cbv zeta. pose proof (Z.log2_nonneg n) as Hk.
  split; [exact Hk|]. split.
  - unfold rounddown_pow_of_two. now rewrite Z.shiftl_1_l.
  - apply Z.log2_spec. exact Hn.
Qed.

(** C9.  [delta_at24_init] with [io_limit = 0] returns [-EINVAL] and
    leaves the driver unregistered, so no device is probed; with a
    nonzero [io_limit] it replaces it by the largest power of two not
    above it and only then registers the driver, so every probe sees the
    rounded value.  An [io_limit] of 100 becomes 64. *)
Theorem delta_at24_init_io_limit (add_status io_limit write_timeout : Z) :
  let m := module_loaded io_limit write_timeout in
  (io_limit = 0 ->
   delta_at24_init add_status m = (- EINVAL, m) /\
   forall cl magic,
     module_probe (snd (delta_at24_init add_status m)) cl magic = None) /\
  (0 < io_limit < 2 ^ 32 ->
   exists k,
     0 <= k /\ 2 ^ k <= io_limit < 2 ^ (k + 1) /\
     delta_at24_init add_status m
     = (add_status, mk_module (2 ^ k) write_timeout (add_status =? 0)) /\
     forall cl magic r,
       module_probe (snd (delta_at24_init add_status m)) cl magic = Some r ->
       r = at24_probe (2 ^ k) cl magic) /\
  delta_at24_init add_status (module_loaded 100 write_timeout)
  = (add_status, mk_module 64 write_timeout (add_status =? 0)).
Proof.
  cbv zeta. split; [|split].
  - intros ->. split; [reflexivity|]. intros cl magic. reflexivity.
  - intros Hio.
    destruct (rounddown_pow_of_two_spec io_limit ltac:(lia)) as (Hk & E & B).
    exists (Z.log2 io_limit). split; [exact Hk|]. split; [exact B|].
    assert (I : delta_at24_init add_status (module_loaded io_limit write_timeout)
                = (add_status,
                   mk_module (2 ^ Z.log2 io_limit) write_timeout
                             (add_status =? 0))).
    { unfold delta_at24_init, module_loaded. cbn [m_io_limit m_write_timeout].
      destruct (Z.eqb_spec io_limit 0); [lia|].
      rewrite E, u32_small by lia. reflexivity. }
    split; [exact I|]. intros cl magic r. rewrite I. cbn [snd].
    unfold module_probe. cbn [m_registered m_io_limit].
    destruct (add_status =? 0); [|discriminate]. now intros [= <-].
  - reflexivity.
Qed.

Lemma delta_at24_init_io_limit_witness :
  exists k,
    0 <= k /\ 2 ^ k <= 128 < 2 ^ (k + 1) /\
    delta_at24_init 0 (module_loaded 128 25)
    = (0, mk_module (2 ^ k) 25 (0 =? 0)) /\
    forall cl magic r,
      module_probe (snd (delta_at24_init 0 (module_loaded 128 25))) cl magic
      = Some r ->
      r = at24_probe (2 ^ k) cl magic.
Proof.
  apply (delta_at24_init_io_limit 0 128 25). lia.
Defined.

(** ** Runs on the two devices *)

Lemma at24_24c128_wf : at24_wf at24_24c128.
Proof. decide_bounds. Qed.

Lemma at24_24c128_paged_wf : at24_wf at24_24c128_paged.
Proof. decide_bounds. Qed.

(** C1 does not hold of the code.  On an erased 24c128, writing the byte
    0x5A at offset 16 completes, and the read of offset 16 that follows
    returns 0xFF: [at24_eeprom_write] sends the word
    [(offset & 0xFF) | buf[0]], so the part sees the address byte
    [0x10 | 0x5A] and the data byte 0, and stores 0 at address 0x5A. *)
Theorem at24_write_read_back_24c128 :
  exists s1 s2,
    at24_write Eeprom16.bus 25 msecs_to_jiffies_hz1000 at24_24c128
      [90] 16 1 Eeprom16.erased = Some (1, s1) /\
    history s1 = [EvLock; EvWriteWordData 0 0 90 0; EvUnlock] /\
    Eeprom16.mem (dev s1) 16 = 255 /\
    Eeprom16.mem (dev s1) 90 = 0 /\
    at24_read Eeprom16.bus 128 25 msecs_to_jiffies_hz1000 at24_24c128
      16 1 s1 = Some ((1, [255]), s2) /\
    ~ round_trip Eeprom16.bus 128 25 msecs_to_jiffies_hz1000 at24_24c128
        16 [90] Eeprom16.erased.
Proof.
  do 2 eexists.
  split; [vm_compute; reflexivity|].
  split; [reflexivity|]. split; [reflexivity|]. split; [reflexivity|].
  split; [vm_compute; reflexivity|].
  intros (s1 & s2 & W & R). cbn [List.length Z.of_nat Pos.of_succ_nat] in *.
  vm_compute in W. injection W as <-.
  vm_compute in R. discriminate.
Qed.

(** C2 does not hold of the code.  When the set-address write is not
    acknowledged (status [-ENXIO]) and the read-byte request that follows
    returns a byte, [at24_eeprom_read] returns that byte at once: no
    sleep, no second attempt. *)
Theorem at24_eeprom_read_unchecked_address :
  at24_eeprom_read Scripted.bus 128 25 msecs_to_jiffies_hz1000 at24_24c128
    [0] 0 16 1 (Scripted.start [- Scripted.ENXIO; 66])
  = Some ((1, [66]),
          mk_sys 1000 [] false
                 [EvReadByte 0 66;
                  EvWriteByteData 0 0 16 (- Scripted.ENXIO)]).
Proof. vm_compute. reflexivity. Qed.

(** The same on any bus: the status of the set-address write plays no
    part in the first turn of the loop. *)
Lemma eeprom_read_retry_first_turn {D : Type} (bus : Bus D) fuel cl offset
    timeout buf pos (s : Sys D) :
  let x1 := bus_write_byte_data bus (jiffies s) cl
              (Z.land (Z.shiftr offset 8) 255) (Z.land offset 255) (dev s) in
  let x2 := bus_read_byte bus (jiffies s + Z.of_nat (x_ticks x1)) cl
              (x_dev x1) in
  0 <= s32 (x_status x2) ->
  exists s',
    eeprom_read_retry bus (S fuel) cl offset 1 timeout buf pos s
    = Some ((1, store buf pos (u8 (s32 (x_status x2)))), s') /\
    history s' = history s
                 ++ [EvWriteByteData cl (Z.land (Z.shiftr offset 8) 255)
                       (Z.land offset 255) (s32 (x_status x1));
                     EvReadByte cl (s32 (x_status x2))].
Proof.
  cbv zeta. intros Hs. rewrite eeprom_read_retry_turn. cbv zeta.
  cbn [jiffies dev].
  destruct (Z.leb_spec 0 (s32 (x_status (bus_read_byte bus
              (jiffies s + Z.of_nat (x_ticks (bus_write_byte_data bus
                 (jiffies s) cl (Z.land (Z.shiftr offset 8) 255)
                 (Z.land offset 255) (dev s)))) cl
              (x_dev (bus_write_byte_data bus (jiffies s) cl
                 (Z.land (Z.shiftr offset 8) 255) (Z.land offset 255)
                 (dev s))))))); [|lia].
  change (u64 1 =? 1) with true. cbv iota.
  eexists. split; [reflexivity|].
  unfold history. cbn [log rev]. now rewrite <- app_assoc.
Qed.

(** A timeout needs the read-byte request to fail until the deadline:
    with a bus that never acknowledges, the read ends with [-ETIMEDOUT]
    after [write_timeout + 1] turns of one jiffy each. *)
Lemma at24_eeprom_read_times_out :
  exists s',
    at24_eeprom_read Scripted.bus 128 25 msecs_to_jiffies_hz1000 at24_24c128
      [0] 0 16 1 (Scripted.start []) = Some ((- ETIMEDOUT, [0]), s') /\
    jiffies s' = 1000 + 25 + 1 /\
    List.length (filter is_bus_event (log s')) = 52%nat.
Proof.
  eexists. split; [vm_compute; reflexivity|]. split; reflexivity.
Qed.

(** A write of 10 bytes at offset 60 of a part with 64-byte pages
    accepts 4 bytes: up to the boundary at 64. *)
Lemma write_at_60_accepts_4 :
  exists s',
    at24_eeprom_write Scripted.bus 25 msecs_to_jiffies_hz1000
      at24_24c128_paged [7] 0 60 10 (Scripted.start [0]) = Some (4, s').
Proof. eexists. vm_compute. reflexivity. Qed.

(** A read of two bytes whose second byte is never acknowledged, and a
    write of two bytes whose second byte is never acknowledged: both
    return 1. *)
Lemma at24_range_partial_progress_witness :
  (exists s1,
     0 <= 1 /\
     at24_read Scripted.bus 128 3 msecs_to_jiffies_hz1000 at24_24c128 16 2
       (Scripted.start [0; 65])
     = Some ((if 1 =? 0 then - ETIMEDOUT else 1, [65; 0]), unlocked s1)) /\
  (exists s1,
     0 <= 1 /\
     at24_write Scripted.bus 3 msecs_to_jiffies_hz1000 at24_24c128 [7; 8] 16 2
       (Scripted.start [0])
     = Some (if 1 =? 0 then - ETIMEDOUT else 1, unlocked s1)).
Proof.
  split.
  - eexists.
    eapply (proj1 (at24_range_partial_progress Scripted.bus 128 3
                     msecs_to_jiffies_hz1000 at24_24c128)
              16 2 (Scripted.start [0; 65]) 1 _ _ (- ETIMEDOUT) [65; 0] _).
    + lia.
    + change 1 with (0 + 1) at 1.
      eapply (read_moved_more Scripted.bus 128 3 msecs_to_jiffies_hz1000
                at24_24c128 16 2 (Scripted.start [0; 65]) 0 _ _ 1 _ _).
      * apply read_moved_none.
      * lia.
      * vm_compute. reflexivity.
      * lia.
    + lia.
    + vm_compute. reflexivity.
    + vm_compute. discriminate.
  - eexists.
    eapply (proj2 (at24_range_partial_progress Scripted.bus 128 3
                     msecs_to_jiffies_hz1000 at24_24c128)
              [7; 8] 16 2 (Scripted.start [0]) 1 _ (- ETIMEDOUT) _).
    + decide_bounds.
    + lia.
    + change 1 with (0 + 1) at 1.
      eapply (write_moved_more Scripted.bus 3 msecs_to_jiffies_hz1000
                at24_24c128 [7; 8] 16 2 (Scripted.start [0]) 0 _ 1 _).
      * apply write_moved_none.
      * lia.
      * vm_compute. reflexivity.
      * lia.
    + lia.
    + vm_compute. reflexivity.
    + vm_compute. discriminate.
Defined.

(** The 24c128 exposes 16384 bytes: offset 16384 is refused, offset
    16383 with one byte is let through. *)
Lemma at24_bin_write_bound_witness :
  (forall off count s,
     bin_size at24_24c128 <= off <= LOFF_MAX ->
     at24_bin_write Scripted.bus 25 msecs_to_jiffies_hz1000 at24_24c128 [7]
       off count s = Some (- EFBIG, s)) /\
  (forall s,
     0 < bin_size at24_24c128 ->
     at24_bin_write Scripted.bus 25 msecs_to_jiffies_hz1000 at24_24c128 [7]
       (bin_size at24_24c128 - 1) 1 s
     = at24_write Scripted.bus 25 msecs_to_jiffies_hz1000 at24_24c128 [7]
         (bin_size at24_24c128 - 1) 1 s /\
     exists r s',
       at24_bin_write Scripted.bus 25 msecs_to_jiffies_hz1000 at24_24c128 [7]
         (bin_size at24_24c128 - 1) 1 s = Some (r, s') /\
       r <> - EFBIG).
Proof.
  apply (at24_bin_write_bound Scripted.bus 25 msecs_to_jiffies_hz1000
           at24_24c128 [7]).
  decide_bounds.
Defined.

(** The two boundary runs: refused at 16384 with nothing logged, one byte
    written at 16383. *)
Lemma at24_bin_write_boundary_runs :
  at24_bin_write Scripted.bus 25 msecs_to_jiffies_hz1000 at24_24c128 [7]
    16384 1 (Scripted.start [0])
  = Some (- EFBIG, Scripted.start [0]) /\
  exists s',
    at24_bin_write Scripted.bus 25 msecs_to_jiffies_hz1000 at24_24c128 [7]
      16383 1 (Scripted.start [0]) = Some (1, s') /\
    history s' = [EvLock; EvWriteWordData 0 63 255 0; EvUnlock].
Proof.
  split; [reflexivity|]. eexists. split; vm_compute; reflexivity.
Qed.

(** A read of three bytes on a bus that stops acknowledging after the
    first: one byte moved, the other two still zero. *)
Lemma read_three_moves_one :
  exists s',
    at24_read Scripted.bus 128 3 msecs_to_jiffies_hz1000 at24_24c128 16 3
      (Scripted.start [0; 65]) = Some ((1, [65; 0; 0]), s').
Proof. eexists. vm_compute. reflexivity. Qed.

(** A read that fails on its first byte returns the error and an all-zero
    buffer; a request of length zero returns 0 without touching lock or
    bus. *)
Lemma at24_read_error_and_empty_runs :
  (exists s',
     at24_read Scripted.bus 128 3 msecs_to_jiffies_hz1000 at24_24c128 16 2
       (Scripted.start []) = Some ((- ETIMEDOUT, [0; 0]), s')) /\
  at24_read Scripted.bus 128 3 msecs_to_jiffies_hz1000 at24_24c128 16 0
    (Scripted.start [0]) = Some ((0, []), Scripted.start [0]) /\
  at24_write Scripted.bus 3 msecs_to_jiffies_hz1000 at24_24c128 [] 16 0
    (Scripted.start [0]) = Some (0, Scripted.start [0]).
Proof.
  split; [eexists; vm_compute; reflexivity|]. split; reflexivity.
Qed.

(** ** The deadline *)

Section Deadline.

Context {D : Type}.
Variable bus : Bus D.
Variables io_limit write_timeout : Z.
Variable msecs_to_jiffies : Z -> Z.

(** The read loop gives up only after the deadline has passed. *)
Lemma eeprom_read_retry_deadline fuel cl offset count timeout buf pos s
    st buf' s' :
  0 <= count ->
  eeprom_read_retry bus fuel cl offset count timeout buf pos s
  = Some ((st, buf'), s') ->
  st = - ETIMEDOUT ->
  timeout < jiffies s'.
Proof.
  intros Hc. revert buf s.
  induction fuel as [|fuel IH]; intros buf s E Hst; [discriminate|].
  rewrite eeprom_read_retry_turn in E. cbv zeta in E.
  destruct (u64 _ =? count).
  - injection E as <- _ _. unfold ETIMEDOUT in Hst. lia.
  - unfold time_before in E.
    destruct (Z.ltb_spec (jiffies s) timeout) as [Hb|Hb].
    + eapply IH; eassumption.
    + injection E as _ _ <-. cbn [jiffies]. lia.
Qed.

(** [at24_eeprom_read] returns [-ETIMEDOUT] only when more than
    [msecs_to_jiffies(write_timeout)] jiffies have gone by. *)
Lemma at24_eeprom_read_timeout_not_early at24 buf pos offset count s buf' s' :
  at24_eeprom_read bus io_limit write_timeout msecs_to_jiffies at24 buf pos
    offset count s = Some ((- ETIMEDOUT, buf'), s') ->
  jiffies s + msecs_to_jiffies write_timeout < jiffies s'.
Proof.
  unfold at24_eeprom_read.
  destruct (at24_translate_offset (chip at24) offset) as [cl o].
  unfold bind, get_jiffies. intros E.
  eapply eeprom_read_retry_deadline; [|exact E|reflexivity]. lia.
Qed.

End Deadline.

(** * Further properties of the driver *)

(** ** Address translation and the device table *)

(** The two halves of a translated offset put together give the offset
    back, so two offsets that translate to the same client and in-chip
    offset are the same offset. *)
Theorem at24_translate_offset_recombine (c : at24_platform_data) :
  (forall offset,
     fst (at24_translate_offset c offset) * address_span c
     + snd (at24_translate_offset c offset) = offset) /\
  (forall a b,
     at24_translate_offset c a = at24_translate_offset c b -> a = b).
Proof.
  pose proof (address_span_pos c) as P.
  assert (R : forall offset,
            fst (at24_translate_offset c offset) * address_span c
            + snd (at24_translate_offset c offset) = offset).
  { intros offset. rewrite at24_translate_offset_eq. cbn [fst snd].
    pose proof (Z.div_mod offset (address_span c) ltac:(lia)). lia. }
  split; [exact R|].
  intros a b E. rewrite <- (R a), <- (R b). now rewrite E.
Qed.

Lemma at24_translate_offset_recombine_witness :
  fst (at24_translate_offset (mk_chip 16384 1 128) 300)
  * address_span (mk_chip 16384 1 128)
  + snd (at24_translate_offset (mk_chip 16384 1 128) 300) = 300 /\
  300 = 300.
Proof.
  split.
  - apply (proj1 (at24_translate_offset_recombine (mk_chip 16384 1 128))).
  - apply (proj2 (at24_translate_offset_recombine (mk_chip 16384 1 128))).
    reflexivity.
Defined.





Lemma alias_index_bound c offset :
  0 <= byte_len c < 2 ^ 32 ->
  0 <= offset < byte_len c ->
  (if has_flag c AT24_FLAG_TAKE8ADDR
   then byte_len c <=? 8 * address_span c
   else byte_len c + address_span c <=? 2 ^ 32) = true ->
  0 <= fst (at24_translate_offset c offset) < at24_num_addresses c.
Proof.
  intros Hl Ho Hc. rewrite at24_translate_offset_eq. cbn [fst].
  pose proof (address_span_pos c) as P.
  unfold at24_num_addresses.
  destruct (has_flag c AT24_FLAG_TAKE8ADDR).
  - apply Z.leb_le in Hc. split; [apply Z.div_pos; lia|].
    apply Z.div_lt_upper_bound; lia.
  - apply Z.leb_le in Hc.
    change (if has_flag c AT24_FLAG_ADDR16 then 65536 else 256)
      with (address_span c).
    apply (div_below_ceil (byte_len c)); try lia.
    apply DIV_ROUND_UP_ceil; lia.
Qed.

(** The devicetree node changes neither the length nor the addressing
    flags of a chip. *)
Lemma at24_get_ofdata_geometry node c :
  0 <= flags c < 2 ^ 8 ->
  byte_len (at24_get_ofdata node c) = byte_len c /\
  (forall f, f = AT24_FLAG_TAKE8ADDR \/ f = AT24_FLAG_ADDR16 ->
             has_flag (at24_get_ofdata node c) f = has_flag c f).
Proof.
  intros Hf.
  assert (E : forall f, f = AT24_FLAG_TAKE8ADDR \/ f = AT24_FLAG_ADDR16 ->
              Z.land (u8 (Z.lor (flags c) AT24_FLAG_READONLY)) f
              = Z.land (flags c) f).
  { intros f Hfl. rewrite <- (u8_small (flags c)) at 1 2 by exact Hf.
    unfold u8 at 2. rewrite <- land_255, lor_readonly_u8, land_255.
    fold (u8 (flags c)). rewrite u8_small by exact Hf.
    rewrite Z.land_lor_distr_l.
    destruct Hfl as [->| ->]; cbn; apply Z.lor_0_r. }
  unfold at24_get_ofdata, has_flag.
  destruct node as [[[|] [val|]]|]; cbn [of_read_only of_pagesize byte_len flags];
    (split; [reflexivity|]); intros f Hfl; rewrite ?E by exact Hfl;
    reflexivity.
Qed.

Lemma at24_resolve_chip_node node magic c0 :
  at24_resolve_chip None None magic = inr c0 ->
  at24_resolve_chip None node magic = inr (at24_get_ofdata node c0).
Proof.
  unfold at24_resolve_chip. destruct (magic =? 0); [discriminate|].
  cbn [at24_get_ofdata]. now intros [= <-].
Qed.

(** The entries of the table one by one, without a devicetree node. *)
Lemma delta_at24_ids_entries name magic :
  In (name, magic) delta_at24_ids ->
  magic <> 0 ->
  driver_data name delta_at24_ids = Some magic /\
  exists c0,
    at24_resolve_chip None None magic = inr c0 /\
    0 < byte_len c0 < 2 ^ 32 /\ 0 <= flags c0 < 2 ^ 8 /\
    (if has_flag c0 AT24_FLAG_TAKE8ADDR
     then byte_len c0 <=? 8 * address_span c0
     else byte_len c0 + address_span c0 <=? 2 ^ 32) = true.
Proof.
  intros Hin Hnz. unfold delta_at24_ids in Hin. cbn [In] in Hin.
  repeat (destruct Hin as [Hin|Hin];
          [injection Hin as <- <-;
           (split; [reflexivity|]);
           eexists; split; [vm_compute; reflexivity|];
           cbn [byte_len flags]; repeat split; try lia; reflexivity
          |]).
  destruct Hin as [Hin|[]]. injection Hin as <- <-. contradiction.
Qed.

(** Every part of the device table is found under its name and, however
    the devicetree node of the client looks, is probed with a geometry in
    which every offset below [byte_len] translates to a client inside
    [client[0 .. num_addresses - 1]]. *)
Theorem delta_at24_ids_addressable (name : string) (magic : Z)
    (node : option device_node) :
  In (name, magic) delta_at24_ids ->
  magic <> 0 ->
  driver_data name delta_at24_ids = Some magic /\
  exists c,
    at24_resolve_chip None node magic = inr c /\
    0 < byte_len c /\
    forall offset,
      0 <= offset < byte_len c ->
      0 <= fst (at24_translate_offset c offset) < at24_num_addresses c.
Proof.
  intros Hin Hnz.
  destruct (delta_at24_ids_entries name magic Hin Hnz)
    as (Hd & c0 & R & Hl & Hf & Hc).
  split; [exact Hd|].
  exists (at24_get_ofdata node c0).
  split; [now apply at24_resolve_chip_node|].
  destruct (at24_get_ofdata_geometry node c0 Hf) as [El Ef].
  rewrite El. split; [lia|].
  intros offset Ho. apply alias_index_bound.
  - rewrite El. lia.
  - rewrite El. exact Ho.
  - unfold address_span. rewrite !Ef, El by auto. exact Hc.
Qed.

Lemma delta_at24_ids_addressable_witness :
  driver_data "24c00-delta" delta_at24_ids
  = Some (AT24_DEVICE_MAGIC (128 / 8) AT24_FLAG_TAKE8ADDR) /\
  exists c,
    at24_resolve_chip None None (AT24_DEVICE_MAGIC (128 / 8) AT24_FLAG_TAKE8ADDR)
    = inr c /\
    0 < byte_len c /\
    forall offset,
      0 <= offset < byte_len c ->
      0 <= fst (at24_translate_offset c offset) < at24_num_addresses c.
Proof.
  apply (delta_at24_ids_addressable "24c00-delta"
           (AT24_DEVICE_MAGIC (128 / 8) AT24_FLAG_TAKE8ADDR) None).
  - left. reflexivity.
  - vm_compute. discriminate.
Defined.

(** ** The instance [at24_probe] builds *)

(** What a successful [at24_probe] fixes besides the geometry: the
    transfer mode is plain I2C or, on any SMBus-only adapter, byte data;
    the file is writable exactly when the chip is not read-only and the
    adapter is able; a writable instance has a [write_max] of at least
    one byte, at most a page, at most [io_limit] and, on SMBus, at most a
    block, and a file with the owner-write bit; an instance that is not
    writable has [write_max = 0] and no write bit; the read bits are
    those of the owner, or of everybody under IRUGO. *)
Theorem at24_probe_instance (io_limit : Z) (cl : i2c_client) (magic : Z)
    (d : at24_data) :
  1 <= io_limit < 2 ^ 32 ->
  (forall c0, platform_data cl = Some c0 -> chip_wf c0) ->
  at24_probe io_limit cl magic = inr d ->
  use_smbus d = (if func_i2c (adapter cl) then 0 else I2C_SMBUS_BYTE_DATA) /\
  bin_write d = negb (has_flag (chip d) AT24_FLAG_READONLY)
                && (func_i2c (adapter cl)
                    || func_smbus_write_i2c_block (adapter cl)) /\
  write_max d =
    (if bin_write d
     then let m := Z.min (page_size (chip d)) io_limit in
          if func_i2c (adapter cl) then m else Z.min m I2C_SMBUS_BLOCK_MAX
     else 0) /\
  (bin_write d = true -> 1 <= write_max d <= page_size (chip d)) /\
  Z.land (bin_mode d) S_IWUSR = (if bin_write d then S_IWUSR else 0) /\
  Z.land (bin_mode d) S_IRUGO
  = (if has_flag (chip d) AT24_FLAG_IRUGO then S_IRUGO else S_IRUSR).
Proof.
  intros Hio Hpd E. unfold at24_probe in E.
  destruct (at24_resolve_chip (platform_data cl) (of_node cl) magic)
    as [e|c] eqn:R; [discriminate|].
  pose proof (at24_resolve_chip_wf _ _ _ _ Hpd R) as (_ & Hp & _).
  destruct (Z.eqb_spec (page_size c) 0) as [|Hps]; [discriminate|].
  unfold at24_use_smbus in E.
  destruct (func_i2c (adapter cl)) eqn:Fi.
  - destruct (negb (kzalloc_at24 cl)); [discriminate|].
    destruct (_ && negb (kzalloc_writebuf cl)); [discriminate|].
    destruct (at24_new_dummies _ _ _ _); [|discriminate].
    destruct (sysfs_create_err cl =? 0); [|discriminate].
    injection E as <-.
    cbn [use_smbus bin_write write_max chip bin_mode].
    change (0 =? 0) with true. cbn [orb negb andb].
    rewrite andb_true_r.
    destruct (has_flag c AT24_FLAG_READONLY); cbn [negb];
      destruct (has_flag c AT24_FLAG_IRUGO);
      repeat split; try reflexivity; try discriminate;
      destruct (Z.gtb_spec (page_size c) io_limit); cbv zeta; lia.
  - destruct (func_smbus_read_i2c_block (adapter cl));
      [|destruct (func_smbus_read_word_data (adapter cl));
        [|destruct (func_smbus_read_byte_data (adapter cl));
          [|discriminate]]].
    all: destruct (negb (kzalloc_at24 cl)); [discriminate|].
    all: destruct (_ && negb (kzalloc_writebuf cl)); [discriminate|].
    all: destruct (at24_new_dummies _ _ _ _); [|discriminate].
    all: destruct (sysfs_create_err cl =? 0); [|discriminate].
    all: injection E as <-.
    all: cbn [use_smbus bin_write write_max chip bin_mode].
    all: change (I2C_SMBUS_BYTE_DATA =? 0) with false; cbn [orb negb andb].
    all: destruct (has_flag c AT24_FLAG_READONLY); cbn [negb andb];
      destruct (func_smbus_write_i2c_block (adapter cl));
      destruct (has_flag c AT24_FLAG_IRUGO);
      repeat split; try reflexivity; try discriminate;
      unfold I2C_SMBUS_BLOCK_MAX; cbv zeta;
      destruct (Z.gtb_spec (page_size c) io_limit);
      try destruct (Z.gtb_spec io_limit 32);
      try destruct (Z.gtb_spec (page_size c) 32); lia.
Qed.

(** The 24c128 of the table behind an SMBus adapter that can read and
    write blocks. *)
Lemma at24_probe_instance_witness :
  let cl := mk_client None None
              (mk_adapter false true true true true (fun _ => true)) 86 0 in
  exists d,
    at24_probe 128 cl 12302 = inr d /\
    use_smbus d = (if func_i2c (adapter cl) then 0 else I2C_SMBUS_BYTE_DATA) /\
    bin_write d = negb (has_flag (chip d) AT24_FLAG_READONLY)
                  && (func_i2c (adapter cl)
                      || func_smbus_write_i2c_block (adapter cl)) /\
    write_max d =
      (if bin_write d
       then let m := Z.min (page_size (chip d)) 128 in
            if func_i2c (adapter cl) then m else Z.min m I2C_SMBUS_BLOCK_MAX
       else 0) /\
    (bin_write d = true -> 1 <= write_max d <= page_size (chip d)) /\
    Z.land (bin_mode d) S_IWUSR = (if bin_write d then S_IWUSR else 0) /\
    Z.land (bin_mode d) S_IRUGO
    = (if has_flag (chip d) AT24_FLAG_IRUGO then S_IRUGO else S_IRUSR).
Proof.
  cbv zeta. eexists. split; [vm_compute; reflexivity|].
  eapply (at24_probe_instance 128
            (mk_client None None
               (mk_adapter false true true true true (fun _ => true)) 86 0)
            12302).
  - lia.
  - intros c0 H. discriminate H.
  - vm_compute. reflexivity.
Defined.

(** ** Chunks and pages *)

Lemma is_pow2_min a b : is_pow2 a -> is_pow2 b ->
  is_pow2 (Z.min a b) /\ (Z.min a b | a).
Proof.
  intros (j & Hj & ->) (k & Hk & ->).
  destruct (Z.le_ge_cases j k) as [Hle|Hge].
  - assert (2 ^ j <= 2 ^ k) by (apply Z.pow_le_mono_r; lia).
    rewrite Z.min_l by lia. split; [now exists j|]. exists 1. lia.
  - assert (2 ^ k <= 2 ^ j) by (apply Z.pow_le_mono_r; lia).
    rewrite Z.min_r by lia. split; [now exists k|].
    exists (2 ^ (j - k)). rewrite <- Z.pow_add_r by lia. f_equal. lia.
Qed.

(** The [write_max] of a writable instance. *)
Lemma at24_probe_write_max_eq io_limit cl magic d :
  at24_probe io_limit cl magic = inr d ->
  bin_write d = true ->
  write_max d
  = (let m := Z.min (page_size (chip d)) io_limit in
     if func_i2c (adapter cl) then m else Z.min m I2C_SMBUS_BLOCK_MAX).
Proof.
  intros E Hw. unfold at24_probe in E.
  destruct (at24_resolve_chip (platform_data cl) (of_node cl) magic)
    as [e|c]; [discriminate|].
  destruct (page_size c =? 0); [discriminate|].
  assert (U : at24_use_smbus (adapter cl) = inl (- EPFNOSUPPORT)
              \/ at24_use_smbus (adapter cl)
                 = inr (if func_i2c (adapter cl) then 0
                        else I2C_SMBUS_BYTE_DATA)).
  { unfold at24_use_smbus. destruct (func_i2c (adapter cl)); [now right|].
    destruct (func_smbus_read_i2c_block (adapter cl)); [now right|].
    destruct (func_smbus_read_word_data (adapter cl)); [now right|].
    destruct (func_smbus_read_byte_data (adapter cl)); [now right|now left]. }
  destruct U as [U|U]; rewrite U in E; [discriminate|].
  destruct (negb (kzalloc_at24 cl)); [discriminate|].
  destruct (_ && negb (kzalloc_writebuf cl)); [discriminate|].
  destruct (at24_new_dummies _ _ _ _); [|discriminate].
  destruct (sysfs_create_err cl =? 0); [|discriminate].
  injection E as <-. cbn [bin_write write_max chip] in *. rewrite Hw.
  cbv zeta. unfold I2C_SMBUS_BLOCK_MAX, I2C_SMBUS_BYTE_DATA.
  destruct (func_i2c (adapter cl)); cbn [Z.eqb negb andb];
    destruct (Z.gtb_spec (page_size c) io_limit);
    try destruct (Z.gtb_spec io_limit 32);
    try destruct (Z.gtb_spec (page_size c) 32); lia.
Qed.

(** The comment on [io_limit] says it is forced to a power of two so
    that writes align on pages.  With a power-of-two [io_limit] (what
    [delta_at24_init] leaves) and a power-of-two page size, the
    [write_max] of a writable instance is a power of two that divides the
    page size. *)
Theorem at24_probe_write_max_divides (io_limit : Z) (cl : i2c_client)
    (magic : Z) (d : at24_data) :
  at24_probe io_limit cl magic = inr d ->
  is_pow2 io_limit -> is_pow2 (page_size (chip d)) ->
  bin_write d = true ->
  is_pow2 (write_max d) /\ (write_max d | page_size (chip d)).
Proof.
  intros E Pio Pps Hw.
  rewrite (at24_probe_write_max_eq io_limit cl magic d E Hw). cbv zeta.
  destruct (is_pow2_min _ _ Pps Pio) as [P1 D1].
  destruct (func_i2c (adapter cl)); [now split|].
  assert (P32 : is_pow2 I2C_SMBUS_BLOCK_MAX)
    by (exists 5; split; [lia|reflexivity]).
  destruct (is_pow2_min _ _ P1 P32) as [P2 D2].
  split; [exact P2|]. eapply Z.divide_trans; eassumption.
Qed.

(** A part with 64-byte pages behind an SMBus adapter: chunks of 32. *)
Lemma at24_probe_write_max_divides_witness :
  exists d,
    at24_probe 128
      (mk_client (Some (mk_chip 16384 64 128)) None
         (mk_adapter false true true true true (fun _ => true)) 86 0) 0
    = inr d /\
    write_max d = 32 /\
    is_pow2 (write_max d) /\ (write_max d | page_size (chip d)).
Proof.
  eexists. split; [vm_compute; reflexivity|]. split; [reflexivity|].
  eapply (at24_probe_write_max_divides 128
            (mk_client (Some (mk_chip 16384 64 128)) None
               (mk_adapter false true true true true (fun _ => true)) 86 0)
            0).
  - vm_compute. reflexivity.
  - exists 7. split; [lia|reflexivity].
  - exists 6. split; [lia|reflexivity].
  - reflexivity.
Defined.



(** ** Alias addresses: reserving and releasing *)

Lemma reserved_app a b : reserved (a ++ b) = reserved a ++ reserved b.
Proof.
  induction a as [|[x [|]|x|e|] a IH]; cbn; rewrite ?IH; reflexivity.
Qed.

Lemma released_app a b : released (a ++ b) = released a ++ released b.
Proof.
  induction a as [|[x o|x|e|] a IH]; cbn; rewrite ?IH; reflexivity.
Qed.

Lemma at24_err_clients_none n : at24_err_clients (repeat None n) = [].
Proof. induction n; cbn; auto. Qed.

Lemma at24_err_clients_reserved slots : reserved (at24_err_clients slots) = [].
Proof. induction slots as [|[a|] slots IH]; cbn; auto. Qed.

(** The loop that reserves the aliases: what it reserved is what
    [err_clients] would release; it releases nothing itself; and when it
    runs to its end it has reserved [base + i], [base + i + 1], ... in
    this order, which are the addresses [at24_new_dummies] returns. *)
Lemma at24_probe_dummies_spec a base i n :
  let '(slots, calls, ok) := at24_probe_dummies a base i n in
  released (at24_err_clients slots) = reserved calls /\
  released calls = [] /\
  at24_new_dummies a base i n
  = (if ok then Some (reserved calls) else None) /\
  (ok = true ->
   calls = map (fun x => KNewDummy x true) (reserved calls) /\
   reserved calls = map (fun j => base + i + Z.of_nat j) (seq 0 n)).
Proof.
  revert i. induction n as [|n IH]; intros i.
  - cbn. repeat split; reflexivity.
  - cbn [at24_probe_dummies at24_new_dummies].
    destruct (addr_free a (base + i)).
    + specialize (IH (i + 1)).
      destruct (at24_probe_dummies a base (i + 1) n) as [[slots calls] ok].
      destruct IH as (E1 & E2 & E3 & E4).
      split; [cbn; now rewrite E1|]. split; [exact E2|].
      split; [rewrite E3; now destruct ok|].
      intros ->. destruct (E4 eq_refl) as [C R].
      split; [cbn; now rewrite <- C|].
      cbn [reserved seq map]. rewrite R. f_equal; [lia|].
      rewrite <- seq_shift, map_map. apply map_ext. intros j. lia.
    + split; [now rewrite at24_err_clients_none|].
      split; [reflexivity|]. split; [reflexivity|discriminate].
Qed.

(** A failed [at24_probe] releases every alias address it reserved, in
    the order it reserved them, and nothing else. *)
Theorem at24_probe_failure_releases (io_limit : Z) (cl : i2c_client)
    (magic e : Z) :
  at24_probe io_limit cl magic = inl e ->
  released (at24_probe_calls cl magic) = reserved (at24_probe_calls cl magic).
Proof.
  intros E. unfold at24_probe in E. unfold at24_probe_calls.
  destruct (at24_resolve_chip (platform_data cl) (of_node cl) magic)
    as [e0|c]; [reflexivity|].
  destruct (page_size c =? 0); [reflexivity|].
  destruct (at24_use_smbus (adapter cl)) as [e0|use]; [reflexivity|].
  destruct (negb (kzalloc_at24 cl)); [reflexivity|].
  destruct (_ && negb (kzalloc_writebuf cl)); [reflexivity|].
  pose proof (at24_probe_dummies_spec (adapter cl) (addr cl) 1
                (Z.to_nat (at24_num_addresses c - 1))) as S.
  destruct (at24_probe_dummies _ _ _ _) as [[slots calls] ok].
  destruct S as (E1 & E2 & E3 & _). rewrite E3 in E.
  destruct ok.
  - destruct (sysfs_create_err cl =? 0); [discriminate|].
    rewrite released_app, reserved_app. cbn [released reserved].
    now rewrite E1, E2, at24_err_clients_reserved, app_nil_r.
  - rewrite released_app, reserved_app.
    now rewrite E1, E2, at24_err_clients_reserved, app_nil_r.
Qed.

(** A 24c08 (four addresses) whose third address is taken. *)
Lemma at24_probe_failure_releases_witness :
  let cl := mk_client None None
              (mk_adapter true true true true true (fun a => negb (a =? 82)))
              80 0 in
  at24_probe_calls cl (AT24_DEVICE_MAGIC (8192 / 8) 0)
  = [KNewDummy 81 true; KNewDummy 82 false; KUnregister 81] /\
  released (at24_probe_calls cl (AT24_DEVICE_MAGIC (8192 / 8) 0))
  = reserved (at24_probe_calls cl (AT24_DEVICE_MAGIC (8192 / 8) 0)).
Proof.
  cbv zeta. split; [reflexivity|].
  apply (at24_probe_failure_releases 128
           (mk_client None None
              (mk_adapter true true true true true (fun a => negb (a =? 82)))
              80 0)
           (AT24_DEVICE_MAGIC (8192 / 8) 0) (- EADDRINUSE)).
  reflexivity.
Defined.

Lemma at24_remove_loop_suffix pre l :
  at24_remove_loop (pre ++ l) (List.length pre) (List.length l)
  = map KUnregister l.
Proof.
  revert pre. induction l as [|x l IH]; intros pre; [reflexivity|].
  cbn [List.length at24_remove_loop map].
  rewrite nth_error_app2, Nat.sub_diag by lia. cbn [nth_error].
  f_equal.
  replace (pre ++ x :: l) with ((pre ++ [x]) ++ l)
    by (now rewrite <- app_assoc).
  replace (S (List.length pre)) with (List.length (pre ++ [x]))
    by (rewrite length_app; cbn; lia).
  apply IH.
Qed.

(** A successful [at24_probe] reserves the addresses [addr + 1] to
    [addr + num_addresses - 1] in this order and releases none;
    [client[]] holds [addr] and these; and [at24_remove] of the instance
    removes the sysfs file and then releases exactly the addresses the
    probe reserved, in the same order. *)
Theorem at24_probe_remove_paired (io_limit : Z) (cl : i2c_client)
    (magic : Z) (d : at24_data) :
  at24_probe io_limit cl magic = inr d ->
  client d = map (fun j => addr cl + Z.of_nat j)
                 (seq 0 (S (Z.to_nat (num_addresses d - 1)))) /\
  at24_probe_calls cl magic
  = map (fun x => KNewDummy x true) (tl (client d)) ++ [KSysfsCreate 0] /\
  at24_remove d = KSysfsRemove :: map KUnregister (tl (client d)) /\
  released (at24_probe_calls cl magic) = [] /\
  released (at24_remove d) = reserved (at24_probe_calls cl magic).
Proof.
  intros E. unfold at24_probe in E. unfold at24_probe_calls.
  destruct (at24_resolve_chip (platform_data cl) (of_node cl) magic)
    as [e0|c]; [discriminate|].
  destruct (page_size c =? 0); [discriminate|].
  destruct (at24_use_smbus (adapter cl)) as [e0|use]; [discriminate|].
  destruct (negb (kzalloc_at24 cl)); [discriminate|].
  destruct (_ && negb (kzalloc_writebuf cl)); [discriminate|].
  pose proof (at24_probe_dummies_spec (adapter cl) (addr cl) 1
                (Z.to_nat (at24_num_addresses c - 1))) as S.
  destruct (at24_probe_dummies _ _ _ _) as [[slots calls] ok].
  destruct S as (E1 & E2 & E3 & E4). rewrite E3 in E.
  destruct ok; [|discriminate].
  destruct (E4 eq_refl) as [C R].
  destruct (Z.eqb_spec (sysfs_create_err cl) 0) as [Hs|]; [|discriminate].
  injection E as <-. cbn [client num_addresses tl]. rewrite Hs.
  assert (Rm : at24_remove_loop (addr cl :: reserved calls) 1
                 (Z.to_nat (at24_num_addresses c - 1))
               = map KUnregister (reserved calls)).
  { replace (Z.to_nat (at24_num_addresses c - 1))
      with (List.length (reserved calls))
      by (now rewrite R, length_map, length_seq).
    apply (at24_remove_loop_suffix [addr cl]). }
  split; [|split; [|split; [|split]]].
  - cbn [seq map]. f_equal; [lia|].
    rewrite R, <- seq_shift, map_map. apply map_ext. intros j. lia.
  - now rewrite <- C.
  - unfold at24_remove. cbn [client num_addresses]. now rewrite Rm.
  - rewrite released_app, E2. reflexivity.
  - unfold at24_remove. cbn [client num_addresses released]. rewrite Rm.
    rewrite reserved_app. cbn [reserved]. rewrite app_nil_r.
    clear. induction (reserved calls) as [|x l IH]; cbn; congruence.
Qed.

(** The 24c08 at 0x50 with its four addresses. *)
Lemma at24_probe_remove_paired_witness :
  exists d,
    at24_probe 128 (mk_client None None full_i2c 80 0)
      (AT24_DEVICE_MAGIC (8192 / 8) 0) = inr d /\
    client d = [80; 81; 82; 83] /\
    at24_remove d
    = [KSysfsRemove; KUnregister 81; KUnregister 82; KUnregister 83] /\
    released (at24_remove d)
    = reserved (at24_probe_calls (mk_client None None full_i2c 80 0)
                  (AT24_DEVICE_MAGIC (8192 / 8) 0)).
Proof.
  eexists. split; [vm_compute; reflexivity|].
  split; [reflexivity|]. split; [reflexivity|].
  eapply (at24_probe_remove_paired 128 (mk_client None None full_i2c 80 0)
            (AT24_DEVICE_MAGIC (8192 / 8) 0)).
  vm_compute. reflexivity.
Defined.

(** ** Locking, bus traffic and time *)

Section Traffic.

Context {D : Type}.
Variable bus : Bus D.
Variables io_limit write_timeout : Z.
Variable msecs_to_jiffies : Z -> Z.

(** What the read loop adds to the log: set-address writes, read-byte
    requests and sleeps only, at most three events a turn; it leaves the
    mutex alone and the clock does not go back. *)
Lemma eeprom_read_retry_log fuel cl offset count timeout buf pos s r s' :
  eeprom_read_retry bus fuel cl offset count timeout buf pos s = Some (r, s') ->
  exists evs,
    log s' = evs ++ log s /\
    forallb is_read_traffic evs = true /\
    (List.length evs <= 3 * fuel)%nat /\
    locked s' = locked s /\ jiffies s <= jiffies s'.
Proof.
  revert buf s. induction fuel as [|fuel IH]; intros buf s E; [discriminate|].
  rewrite eeprom_read_retry_turn in E. cbv zeta in E.
  destruct (u64 _ =? count).
  - injection E as _ <-. eexists [_; _]. cbn [log app jiffies locked].
    repeat split; try reflexivity; cbn; lia.
  - destruct (time_before (jiffies s) timeout).
    + destruct (IH _ _ E) as (evs & L & F & N & K & J).
      cbn [log locked jiffies] in L, K, J.
      eexists (evs ++ [_; _; _]).
      rewrite <- app_assoc. split; [exact L|].
      rewrite forallb_app, F, length_app. cbn [List.length].
      repeat split; try reflexivity; try assumption; lia.
    + injection E as _ <-. eexists [_; _; _]. cbn [log app jiffies locked].
      repeat split; try reflexivity; cbn; lia.
Qed.

(** The write loop: write-word transactions and sleeps only, at most two
    events a turn. *)
Lemma eeprom_write_retry_log fuel cl offset count timeout b s r s' :
  eeprom_write_retry bus fuel cl offset count timeout b s = Some (r, s') ->
  exists evs,
    log s' = evs ++ log s /\
    forallb is_write_traffic evs = true /\
    (List.length evs <= 2 * fuel)%nat /\
    locked s' = locked s /\ jiffies s <= jiffies s'.
Proof.
  revert s. induction fuel as [|fuel IH]; intros s E; [discriminate|].
  rewrite eeprom_write_retry_turn in E. cbv zeta in E.
  destruct (u64 _ =? count).
  - injection E as _ <-. eexists [_]. cbn [log app jiffies locked].
    repeat split; try reflexivity; cbn; lia.
  - destruct (time_before (jiffies s) timeout).
    + destruct (IH _ E) as (evs & L & F & N & K & J).
      cbn [log locked jiffies] in L, K, J.
      eexists (evs ++ [_; _]).
      rewrite <- app_assoc. split; [exact L|].
      rewrite forallb_app, F, length_app. cbn [List.length].
      repeat split; try reflexivity; try assumption; lia.
    + injection E as _ <-. eexists [_; _]. cbn [log app jiffies locked].
      repeat split; try reflexivity; cbn; lia.
Qed.

Lemma at24_eeprom_read_log at24 buf pos offset count s r s' :
  at24_eeprom_read bus io_limit write_timeout msecs_to_jiffies at24 buf pos
    offset count s = Some (r, s') ->
  exists evs,
    log s' = evs ++ log s /\
    forallb is_read_traffic evs = true /\
    (List.length evs <= 3 * retry_fuel write_timeout msecs_to_jiffies)%nat /\
    locked s' = locked s /\ jiffies s <= jiffies s'.
Proof.
  unfold at24_eeprom_read.
  destruct (at24_translate_offset (chip at24) offset) as [cl o].
  unfold bind, get_jiffies. apply eeprom_read_retry_log.
Qed.

Lemma at24_eeprom_write_log at24 buf pos offset count s r s' :
  at24_eeprom_write bus write_timeout msecs_to_jiffies at24 buf pos offset
    count s = Some (r, s') ->
  exists evs,
    log s' = evs ++ log s /\
    forallb is_write_traffic evs = true /\
    (List.length evs <= 2 * retry_fuel write_timeout msecs_to_jiffies)%nat /\
    locked s' = locked s /\ jiffies s <= jiffies s'.
Proof.
  unfold at24_eeprom_write.
  destruct (at24_translate_offset (chip at24) offset) as [cl o].
  unfold bind, get_jiffies. apply eeprom_write_retry_log.
Qed.

Lemma at24_read_loop_log fuel at24 buf pos off count retval s r s' :
  at24_read_loop bus io_limit write_timeout msecs_to_jiffies fuel at24 buf pos
    off count retval s = Some (r, s') ->
  exists evs,
    log s' = evs ++ log s /\
    forallb is_read_traffic evs = true /\
    (List.length evs
     <= fuel * (3 * retry_fuel write_timeout msecs_to_jiffies))%nat /\
    locked s' = locked s.
Proof.
  revert buf pos off count retval s.
  induction fuel as [|fuel IH]; intros buf pos off count retval s E.
  - cbn in E. destruct (count =? 0); [|discriminate].
    injection E as _ <-. exists []. repeat split; cbn; lia.
  - destruct (Z.eq_dec count 0) as [->|Hnz].
    + cbn in E. injection E as _ <-. exists []. repeat split; cbn; lia.
    + rewrite at24_read_loop_turn in E by exact Hnz.
      destruct (at24_eeprom_read _ _ _ _ _ _ _ _ _ s)
        as [[[status buf1] s1]|] eqn:Ee; [|discriminate].
      destruct (at24_eeprom_read_log _ _ _ _ _ _ _ _ Ee)
        as (evs1 & L1 & F1 & N1 & K1 & _).
      destruct (status <=? 0).
      * injection E as _ <-. exists evs1.
        repeat split; try assumption. lia.
      * destruct (IH _ _ _ _ _ _ E) as (evs & L & F & N & K).
        exists (evs ++ evs1). rewrite <- app_assoc, <- L1.
        split; [exact L|]. rewrite forallb_app, F, F1, length_app.
        repeat split; try reflexivity; try congruence. lia.
Qed.

Lemma at24_write_loop_log fuel at24 buf pos off count retval s r s' :
  at24_write_loop bus write_timeout msecs_to_jiffies fuel at24 buf pos off
    count retval s = Some (r, s') ->
  exists evs,
    log s' = evs ++ log s /\
    forallb is_write_traffic evs = true /\
    (List.length evs
     <= fuel * (2 * retry_fuel write_timeout msecs_to_jiffies))%nat /\
    locked s' = locked s.
Proof.
  revert pos off count retval s.
  induction fuel as [|fuel IH]; intros pos off count retval s E.
  - cbn in E. destruct (count =? 0); [|discriminate].
    injection E as _ <-. exists []. repeat split; cbn; lia.
  - destruct (Z.eq_dec count 0) as [->|Hnz].
    + cbn in E. injection E as _ <-. exists []. repeat split; cbn; lia.
    + rewrite at24_write_loop_turn in E by exact Hnz.
      destruct (at24_eeprom_write _ _ _ _ _ _ _ _ s)
        as [[status s1]|] eqn:Ee; [|discriminate].
      destruct (at24_eeprom_write_log _ _ _ _ _ _ _ _ Ee)
        as (evs1 & L1 & F1 & N1 & K1 & _).
      destruct (status <=? 0).
      * injection E as _ <-. exists evs1.
        repeat split; try assumption. lia.
      * destruct (IH _ _ _ _ _ E) as (evs & L & F & N & K).
        exists (evs ++ evs1). rewrite <- app_assoc, <- L1.
        split; [exact L|]. rewrite forallb_app, F, F1, length_app.
        repeat split; try reflexivity; try congruence. lia.
Qed.

(** A range read or write of a nonzero count takes the lock once, first
    thing, and releases it once, last thing, on every way out.  In
    between a read makes only set-address writes, read-byte requests and
    sleeps, a write only write-word transactions and sleeps, and their
    number is bounded by the count and the retry budget.  A request of
    count zero returns 0 and touches neither lock nor bus. *)
Theorem at24_range_lock_discipline (at24 : at24_data) (buf : list Z)
    (off count : Z) (s : Sys D) :
  (forall r s',
     count <> 0 ->
     at24_read bus io_limit write_timeout msecs_to_jiffies at24 off count s
     = Some (r, s') ->
     locked s' = false /\
     exists evs,
       log s' = EvUnlock :: evs ++ EvLock :: log s /\
       forallb is_read_traffic evs = true /\
       (List.length evs
        <= Z.to_nat count
           * (3 * retry_fuel write_timeout msecs_to_jiffies))%nat) /\
  (forall r s',
     count <> 0 ->
     at24_write bus write_timeout msecs_to_jiffies at24 buf off count s
     = Some (r, s') ->
     locked s' = false /\
     exists evs,
       log s' = EvUnlock :: evs ++ EvLock :: log s /\
       forallb is_write_traffic evs = true /\
       (List.length evs
        <= Z.to_nat count
           * (2 * retry_fuel write_timeout msecs_to_jiffies))%nat) /\
  at24_read bus io_limit write_timeout msecs_to_jiffies at24 off 0 s
  = Some ((0, []), s) /\
  at24_write bus write_timeout msecs_to_jiffies at24 buf off 0 s = Some (0, s).
Proof.
  split; [|split; [|split; reflexivity]].
  - intros r s' Hc E. rewrite at24_read_unfold in E by exact Hc.
    destruct (at24_read_loop _ _ _ _ _ _ _ _ _ _ _ _) as [[r1 s1]|] eqn:El;
      [|discriminate].
    injection E as _ <-. split; [reflexivity|].
    destruct (at24_read_loop_log _ _ _ _ _ _ _ _ _ _ El)
      as (evs & L & F & N & _).
    exists evs. unfold unlocked. cbn [log] in *. rewrite L.
    repeat split; assumption.
  - intros r s' Hc E. rewrite at24_write_unfold in E by exact Hc.
    destruct (at24_write_loop _ _ _ _ _ _ _ _ _ _ _) as [[r1 s1]|] eqn:El;
      [|discriminate].
    injection E as _ <-. split; [reflexivity|].
    destruct (at24_write_loop_log _ _ _ _ _ _ _ _ _ _ El)
      as (evs & L & F & N & _).
    exists evs. unfold unlocked. cbn [log] in *. rewrite L.
    repeat split; assumption.
Qed.

End Traffic.

(** A read that lets its second byte time out. *)
Lemma at24_range_lock_discipline_witness :
  exists s',
    at24_read Scripted.bus 128 3 msecs_to_jiffies_hz1000 at24_24c128 16 2
      (Scripted.start [0; 65]) = Some ((1, [65; 0]), s') /\
    locked s' = false /\
    exists evs,
      log s' = EvUnlock :: evs ++ EvLock :: log (Scripted.start [0; 65]) /\
      forallb is_read_traffic evs = true /\
      (List.length evs
       <= Z.to_nat 2 * (3 * retry_fuel 3 msecs_to_jiffies_hz1000))%nat.
Proof.
  eexists. split; [vm_compute; reflexivity|].
  eapply (proj1 (at24_range_lock_discipline Scripted.bus 128 3
                   msecs_to_jiffies_hz1000 at24_24c128 [] 16 2
                   (Scripted.start [0; 65]))).
  - discriminate.
  - vm_compute. reflexivity.
Defined.

Section Patience.

Context {D : Type}.
Variable bus : Bus D.
Variables io_limit write_timeout : Z.
Variable msecs_to_jiffies : Z -> Z.

(** The write loop gives up only after the deadline has passed. *)
Lemma eeprom_write_retry_deadline fuel cl offset count timeout b s st s' :
  0 <= count ->
  eeprom_write_retry bus fuel cl offset count timeout b s = Some (st, s') ->
  st = - ETIMEDOUT ->
  timeout < jiffies s'.
Proof.
  intros Hc. revert s.
  induction fuel as [|fuel IH]; intros s E Hst; [discriminate|].
  rewrite eeprom_write_retry_turn in E. cbv zeta in E.
  destruct (u64 _ =? count).
  - injection E as <- _. unfold ETIMEDOUT in Hst. lia.
  - unfold time_before in E.
    destruct (Z.ltb_spec (jiffies s) timeout) as [Hb|Hb].
    + eapply IH; eassumption.
    + injection E as _ <-. cbn [jiffies]. lia.
Qed.

(** Neither transfer function gives up early: when a single read or a
    single write returns [-ETIMEDOUT], more than
    [msecs_to_jiffies(write_timeout)] jiffies have gone by since it was
    entered. *)
Theorem at24_timeout_not_early (at24 : at24_data) (buf : list Z) (pos : nat)
    (offset count : Z) (s : Sys D) :
  (forall buf' s',
     at24_eeprom_read bus io_limit write_timeout msecs_to_jiffies at24 buf pos
       offset count s = Some ((- ETIMEDOUT, buf'), s') ->
     jiffies s + msecs_to_jiffies write_timeout < jiffies s') /\
  (forall s',
     at24_wf at24 -> 0 <= count < 2 ^ 64 ->
     at24_eeprom_write bus write_timeout msecs_to_jiffies at24 buf pos offset
       count s = Some (- ETIMEDOUT, s') ->
     jiffies s + msecs_to_jiffies write_timeout < jiffies s').
Proof.
  split.
  - intros buf' s'. apply at24_eeprom_read_timeout_not_early.
  - intros s' W Hc. unfold at24_eeprom_write.
    pose proof (in_chip_offset_range (chip at24) offset) as Ho.
    destruct (at24_translate_offset (chip at24) offset) as [cl o].
    cbn [snd] in Ho. unfold bind, get_jiffies. intros E.
    pose proof (at24_write_count_range at24 o count W Ho Hc) as [R _].
    eapply eeprom_write_retry_deadline; [|exact E|reflexivity]. lia.
Qed.

(** *** A bus that answers *)

(** On a bus whose read-byte request always succeeds, one read takes one
    turn: two transactions, no sleep. *)
Lemma at24_eeprom_read_responsive at24 buf pos offset count s :
  read_responsive bus ->
  exists v evs s',
    at24_eeprom_read bus io_limit write_timeout msecs_to_jiffies at24 buf pos
      offset count s = Some ((1, store buf pos v), s') /\
    log s' = evs ++ log s /\
    List.length evs = 2%nat /\ forallb is_bus_event evs = true.
Proof.
  intros H. unfold at24_eeprom_read.
  destruct (at24_translate_offset (chip at24) offset) as [cl o].
  unfold bind, get_jiffies, retry_fuel.
  rewrite eeprom_read_retry_turn. cbv zeta. cbn [jiffies dev].
  match goal with
  | |- context [0 <=? s32 (x_status (bus_read_byte bus ?n ?c ?d))] =>
      rewrite (proj2 (Z.leb_le 0 _) (H n c d))
  end.
  change (u64 1 =? 1) with true. cbv iota.
  eexists _, [_; _], _. split; [reflexivity|].
  split; [reflexivity|]. split; reflexivity.
Qed.

(** On a bus whose write-word transaction always succeeds, one write of
    one byte takes one turn: one transaction, no sleep. *)
Lemma at24_eeprom_write_responsive at24 buf pos offset s :
  write_responsive bus -> at24_wf at24 -> 1 <= write_max at24 ->
  exists evs s',
    at24_eeprom_write bus write_timeout msecs_to_jiffies at24 buf pos offset
      1 s = Some (1, s') /\
    log s' = evs ++ log s /\
    List.length evs = 1%nat /\ forallb is_bus_event evs = true.
Proof.
  intros H W Hwm. unfold at24_eeprom_write.
  pose proof (in_chip_offset_range (chip at24) offset) as Ho.
  destruct (at24_translate_offset (chip at24) offset) as [cl o].
  cbn [snd] in Ho.
  assert (Ec : at24_write_count at24 o 1 = 1).
  { rewrite at24_write_count_eq by (try assumption; lia). cbv zeta.
    destruct W as ((_ & Hps & _) & Hp & _ & _).
    pose proof (next_page_boundary_spec o (page_size (chip at24))
                  ltac:(lia) Hp) as [_ B].
    rewrite Z.min_l by lia.
    destruct (Z.gtb_spec (o + 1)
                (next_page_boundary o (page_size (chip at24)))); lia. }
  rewrite Ec. unfold bind, get_jiffies, retry_fuel.
  rewrite eeprom_write_retry_turn. cbv zeta. rewrite H.
  change (0 =? 0) with true. cbv iota. change (u64 1 =? 1) with true.
  cbv iota. eexists [_], _. split; [reflexivity|].
  split; [reflexivity|]. split; reflexivity.
Qed.

Lemma at24_read_loop_responsive fuel at24 buf pos off count retval s :
  read_responsive bus ->
  0 <= count < 2 ^ 64 -> count <= Z.of_nat fuel ->
  exists buf' evs s',
    at24_read_loop bus io_limit write_timeout msecs_to_jiffies fuel at24 buf
      pos off count retval s = Some ((retval + count, buf'), s') /\
    log s' = evs ++ log s /\
    List.length evs = (2 * Z.to_nat count)%nat /\
    forallb is_bus_event evs = true.
Proof.
  intros H. revert buf pos off count retval s.
  induction fuel as [|fuel IH]; intros buf pos off count retval s Hc Hf.
  - assert (count = 0) by lia. subst count.
    exists buf, [], s. cbn. rewrite Z.add_0_r. repeat split.
  - destruct (Z.eq_dec count 0) as [->|Hnz].
    + exists buf, [], s. cbn. rewrite Z.add_0_r. repeat split.
    + rewrite at24_read_loop_turn by exact Hnz.
      destruct (at24_eeprom_read_responsive at24 buf pos (u32 off) count s H)
        as (v & evs1 & s1 & E & L1 & N1 & F1).
      rewrite E. change (1 <=? 0) with false. cbv iota.
      rewrite u64_small by lia.
      destruct (IH (store buf pos v) (pos + Z.to_nat 1)%nat (off + 1)
                   (count - 1) (retval + 1) s1 ltac:(lia) ltac:(lia))
        as (buf' & evs & s' & E' & L & N & F).
      exists buf', (evs ++ evs1), s'.
      replace (retval + count) with (retval + 1 + (count - 1)) by ring.
      split; [exact E'|]. rewrite <- app_assoc, <- L1.
      split; [exact L|]. rewrite length_app, forallb_app, F, F1, N, N1.
      split; [lia|reflexivity].
Qed.

Lemma at24_write_loop_responsive fuel at24 buf pos off count retval s :
  write_responsive bus -> at24_wf at24 -> 1 <= write_max at24 ->
  0 <= count < 2 ^ 64 -> count <= Z.of_nat fuel ->
  exists evs s',
    at24_write_loop bus write_timeout msecs_to_jiffies fuel at24 buf pos off
      count retval s = Some (retval + count, s') /\
    log s' = evs ++ log s /\
    List.length evs = Z.to_nat count /\
    forallb is_bus_event evs = true.
Proof.
  intros H W Hwm. revert pos off count retval s.
  induction fuel as [|fuel IH]; intros pos off count retval s Hc Hf.
  - assert (count = 0) by lia. subst count.
    exists [], s. cbn. rewrite Z.add_0_r. repeat split.
  - destruct (Z.eq_dec count 0) as [->|Hnz].
    + exists [], s. cbn. rewrite Z.add_0_r. repeat split.
    + rewrite at24_write_loop_turn by exact Hnz.
      destruct (at24_eeprom_write_responsive at24 buf pos (u32 off) s H W Hwm)
        as (evs1 & s1 & E & L1 & N1 & F1).
      rewrite E. change (1 <=? 0) with false. cbv iota.
      rewrite u64_small by lia.
      destruct (IH (pos + Z.to_nat 1)%nat (off + 1) (count - 1) (retval + 1)
                   s1 ltac:(lia) ltac:(lia))
        as (evs & s' & E' & L & N & F).
      exists (evs ++ evs1), s'.
      replace (retval + count) with (retval + 1 + (count - 1)) by ring.
      split; [exact E'|]. rewrite <- app_assoc, <- L1.
      split; [exact L|]. rewrite length_app, forallb_app, F, F1, N, N1.
      split; [lia|reflexivity].
Qed.

(** When the device answers, a range request completes: on a bus whose
    read-byte request always succeeds, a read of [count] bytes returns
    [count] after exactly two transactions a byte and no sleep, whatever
    the set-address writes returned; on a bus whose write-word
    transaction always succeeds, a write of [count] bytes on a writable
    instance returns [count] after exactly one transaction a byte. *)
Theorem at24_range_completes_when_answered (at24 : at24_data) (off count : Z)
    (s : Sys D) :
  0 < count < 2 ^ 64 ->
  (read_responsive bus ->
   exists buf evs s',
     at24_read bus io_limit write_timeout msecs_to_jiffies at24 off count s
     = Some ((count, buf), s') /\
     log s' = EvUnlock :: evs ++ EvLock :: log s /\
     List.length evs = (2 * Z.to_nat count)%nat /\
     forallb is_bus_event evs = true) /\
  (write_responsive bus -> at24_wf at24 -> 1 <= write_max at24 ->
   forall buf,
   exists evs s',
     at24_write bus write_timeout msecs_to_jiffies at24 buf off count s
     = Some (count, s') /\
     log s' = EvUnlock :: evs ++ EvLock :: log s /\
     List.length evs = Z.to_nat count /\
     forallb is_bus_event evs = true).
Proof.
  intros Hc. split.
  - intros H. rewrite at24_read_unfold by lia.
    destruct (at24_read_loop_responsive (Z.to_nat count) at24
                (repeat 0 (Z.to_nat count)) 0 off count 0
                (mk_sys (jiffies s) (dev s) true (EvLock :: log s)) H
                ltac:(lia) ltac:(lia))
      as (buf & evs & s1 & E & L & N & F).
    rewrite E. exists buf, evs, (unlocked s1).
    split; [reflexivity|]. unfold unlocked. cbn [log] in *. rewrite L.
    repeat split; assumption.
  - intros H W Hwm buf. rewrite at24_write_unfold by lia.
    destruct (at24_write_loop_responsive (Z.to_nat count) at24 buf 0 off
                count 0 (mk_sys (jiffies s) (dev s) true (EvLock :: log s))
                H W Hwm ltac:(lia) ltac:(lia))
      as (evs & s1 & E & L & N & F).
    rewrite E. exists evs, (unlocked s1).
    split; [reflexivity|]. unfold unlocked. cbn [log] in *. rewrite L.
    repeat split; assumption.
Qed.

End Patience.

(** A bus that never acknowledges, with a budget of one jiffy. *)
Lemma at24_timeout_not_early_witness :
  (exists s',
     at24_eeprom_read Scripted.bus 128 1 msecs_to_jiffies_hz1000 at24_24c128
       [0] 0 16 1 (Scripted.start []) = Some ((- ETIMEDOUT, [0]), s') /\
     jiffies (Scripted.start []) + msecs_to_jiffies_hz1000 1 < jiffies s') /\
  (exists s',
     at24_eeprom_write Scripted.bus 1 msecs_to_jiffies_hz1000 at24_24c128
       [7] 0 16 1 (Scripted.start []) = Some (- ETIMEDOUT, s') /\
     jiffies (Scripted.start []) + msecs_to_jiffies_hz1000 1 < jiffies s').
Proof.
  split.
  - eexists. split; [vm_compute; reflexivity|].
    eapply (proj1 (at24_timeout_not_early Scripted.bus 128 1
                     msecs_to_jiffies_hz1000 at24_24c128 [0] 0%nat 16 1
                     (Scripted.start []))).
    vm_compute. reflexivity.
  - eexists. split; [vm_compute; reflexivity|].
    eapply (proj2 (at24_timeout_not_early Scripted.bus 128 1
                     msecs_to_jiffies_hz1000 at24_24c128 [7] 0%nat 16 1
                     (Scripted.start []))).
    + decide_bounds.
    + lia.
    + vm_compute. reflexivity.
Defined.

Lemma steady_read_responsive : read_responsive Steady.bus.
Proof. intros now cl d. vm_compute. discriminate. Qed.

Lemma steady_write_responsive : write_responsive Steady.bus.
Proof. intros now cl command value d. reflexivity. Qed.

(** Three bytes on the device that acknowledges everything. *)
Lemma at24_range_completes_when_answered_witness :
  (exists buf evs s',
     at24_read Steady.bus 128 25 msecs_to_jiffies_hz1000 at24_24c128 16 3
       Steady.start = Some ((3, buf), s') /\
     log s' = EvUnlock :: evs ++ EvLock :: log Steady.start /\
     List.length evs = (2 * Z.to_nat 3)%nat /\
     forallb is_bus_event evs = true) /\
  (exists evs s',
     at24_write Steady.bus 25 msecs_to_jiffies_hz1000 at24_24c128 [1; 2; 3]
       16 3 Steady.start = Some (3, s') /\
     log s' = EvUnlock :: evs ++ EvLock :: log Steady.start /\
     List.length evs = Z.to_nat 3 /\
     forallb is_bus_event evs = true).
Proof.
  destruct (at24_range_completes_when_answered Steady.bus 128 25
              msecs_to_jiffies_hz1000 at24_24c128 16 3 Steady.start
              ltac:(lia)) as [R W].
  split.
  - apply R. exact steady_read_responsive.
  - apply W.
    + exact steady_write_responsive.
    + decide_bounds.
    + vm_compute. discriminate.
Defined.

(** ** Every transfer returns *)

(** The retry loops end, because every futile turn sleeps at least one
    jiffy and the deadline is finitely far: a single read returns 1 or
    [-ETIMEDOUT]; on a well-formed instance a single write returns
    [-ETIMEDOUT] or a count that is neither above the count asked for
    nor above [write_max], and a range write returns [-ETIMEDOUT] or a
    count between 0 and the count asked for. *)
Theorem at24_transfers_return {D : Type} (bus : Bus D)
    (io_limit write_timeout : Z) (msecs_to_jiffies : Z -> Z)
    (at24 : at24_data) (buf : list Z) (pos : nat) (offset count : Z)
    (s : Sys D) :
  0 <= count < 2 ^ 64 ->
  (exists st buf' s',
     at24_eeprom_read bus io_limit write_timeout msecs_to_jiffies at24 buf pos
       offset count s = Some ((st, buf'), s') /\
     (st = 1 \/ st = - ETIMEDOUT)) /\
  (at24_wf at24 ->
   exists st s',
     at24_eeprom_write bus write_timeout msecs_to_jiffies at24 buf pos offset
       count s = Some (st, s') /\
     (st = - ETIMEDOUT \/ (0 <= st <= count /\ st <= write_max at24))) /\
  (at24_wf at24 -> 0 < count ->
   exists r s',
     at24_write bus write_timeout msecs_to_jiffies at24 buf offset count s
     = Some (r, s') /\
     (r = - ETIMEDOUT \/ 0 <= r <= count)).
Proof.
  intros Hc. split; [|split].
  - destruct (at24_eeprom_read_result bus io_limit write_timeout
                msecs_to_jiffies at24 buf pos offset count s)
      as (st & buf' & s' & E & R & _).
    exists st, buf', s'. split; [exact E|].
    destruct R as [[-> _]|[-> _]]; [now left|now right].
  - intros W.
    destruct (at24_eeprom_write_result bus write_timeout msecs_to_jiffies
                at24 buf pos offset count s W Hc) as (st & s' & E & R & _).
    exists st, s'. split; [exact E|].
    destruct R as [-> | ->]; [right|now left].
    apply at24_write_count_range; try assumption.
    apply in_chip_offset_range.
  - intros W Hpos.
    destruct (at24_write_result bus write_timeout msecs_to_jiffies at24 buf
                offset count s W ltac:(lia)) as (r & s' & E & R & _).
    exists r, s'. split; assumption.
Qed.

(** A write of 10 bytes at offset 60 with 64-byte pages, on a bus that
    acknowledges once. *)
Lemma at24_transfers_return_witness :
  exists st s',
    at24_eeprom_write Scripted.bus 25 msecs_to_jiffies_hz1000
      at24_24c128_paged [7] 0 60 10 (Scripted.start [0]) = Some (st, s') /\
    (st = - ETIMEDOUT \/ (0 <= st <= 10 /\ st <= write_max at24_24c128_paged)).
Proof.
  apply (at24_transfers_return Scripted.bus 128 25 msecs_to_jiffies_hz1000
           at24_24c128_paged [7] 0%nat 60 10 (Scripted.start [0])).
  - lia.
  - decide_bounds.
Defined.

(** ** Reading a part with a 16-bit address pointer *)

Lemma store_same buf pos v :
  (pos < List.length buf)%nat -> nth_error (store buf pos v) pos = Some v.
Proof.
  revert pos. induction buf as [|hd tl IH]; intros [|p] H; cbn in *;
    try lia; [reflexivity|]. apply IH. lia.
Qed.

Lemma s32_small x : 0 <= x < 2 ^ 31 -> s32 x = x.
Proof.
  intros H. unfold s32. rewrite u32_small by lia. cbv zeta.
  destruct (Z.ltb_spec x (2 ^ 31)); [reflexivity|lia].
Qed.

Lemma addr16_bytes o :
  0 <= o < 65536 -> Z.land (Z.shiftr o 8) 255 * 256 + Z.land o 255 = o.
Proof.
  intros Ho. rewrite !land_255, shiftr_is_div by lia.
  rewrite (Z.mod_small (o / 2 ^ 8)).
  - pose proof (Z.div_mod o (2 ^ 8) ltac:(lia)). lia.
  - split; [apply Z.div_pos; lia|]. apply Z.div_lt_upper_bound; lia.
Qed.

(** One byte read from an idle part. *)
Lemma eeprom16_read_byte io_limit write_timeout msecs_to_jiffies at24 buf pos
    offset count (s : Sys Eeprom16.state) :
  has_flag (chip at24) AT24_FLAG_ADDR16 = true ->
  0 <= offset < 65536 ->
  Eeprom16.busy (jiffies s) (dev s) = false ->
  0 <= Eeprom16.mem (dev s) offset < 256 ->
  exists s',
    at24_eeprom_read Eeprom16.bus io_limit write_timeout msecs_to_jiffies at24
      buf pos offset count s
    = Some ((1, store buf pos (Eeprom16.mem (dev s) offset)), s') /\
    Eeprom16.mem (dev s') = Eeprom16.mem (dev s) /\
    Eeprom16.busy (jiffies s') (dev s') = false.
Proof.
  intros Hf Ho Hb Hm.
  unfold at24_eeprom_read, at24_translate_offset. rewrite Hf.
  rewrite land_65535, Z.mod_small by lia.
  unfold bind, get_jiffies, retry_fuel.
  rewrite eeprom_read_retry_turn. cbv zeta.
  cbn [bus_write_byte_data bus_read_byte Eeprom16.bus].
  unfold Eeprom16.write_byte_data. rewrite Hb.
  cbn [x_ticks x_dev x_status jiffies dev Z.of_nat].
  rewrite Z.add_0_r. unfold Eeprom16.read_byte.
  unfold Eeprom16.busy in *.
  cbn [Eeprom16.busy_until Eeprom16.mem Eeprom16.ptr]. rewrite Hb.
  cbn [x_ticks x_dev x_status jiffies dev Z.of_nat].
  rewrite addr16_bytes by lia. rewrite s32_small by lia.
  destruct (Z.leb_spec 0 (Eeprom16.mem (dev s) offset)); [|lia].
  change (u64 1 =? 1) with true. cbv iota.
  rewrite u8_small by lia.
  eexists. split; [reflexivity|]. cbn [dev jiffies Eeprom16.mem
    Eeprom16.busy_until]. rewrite Z.add_0_r. split; [reflexivity|exact Hb].
Qed.

Lemma eeprom16_read_loop io_limit write_timeout msecs_to_jiffies fuel at24 buf
    pos off count retval (s : Sys Eeprom16.state) :
  has_flag (chip at24) AT24_FLAG_ADDR16 = true ->
  0 <= off -> off + count <= 65536 ->
  0 <= count <= Z.of_nat fuel ->
  Eeprom16.busy (jiffies s) (dev s) = false ->
  (forall x, 0 <= Eeprom16.mem (dev s) x < 256) ->
  (pos + Z.to_nat count <= List.length buf)%nat ->
  exists buf' s',
    at24_read_loop Eeprom16.bus io_limit write_timeout msecs_to_jiffies fuel
      at24 buf pos off count retval s = Some ((retval + count, buf'), s') /\
    List.length buf' = List.length buf /\
    (forall i, (i < pos)%nat -> nth_error buf' i = nth_error buf i) /\
    (forall j, 0 <= j < count ->
               nth_error buf' (pos + Z.to_nat j)
               = Some (Eeprom16.mem (dev s) (off + j))) /\
    Eeprom16.mem (dev s') = Eeprom16.mem (dev s).
Proof.
  intros Hf. revert buf pos off count retval s.
  induction fuel as [|fuel IH];
    intros buf pos off count retval s Ho Hoc Hc Hb Hm Hl.
  - assert (count = 0) by lia. subst count.
    exists buf, s. cbn. rewrite Z.add_0_r. repeat split; auto. lia.
  - destruct (Z.eq_dec count 0) as [->|Hnz].
    + exists buf, s. cbn. rewrite Z.add_0_r. repeat split; auto. lia.
    + rewrite at24_read_loop_turn by exact Hnz.
      rewrite (u32_small off) by lia.
      destruct (eeprom16_read_byte io_limit write_timeout msecs_to_jiffies
                  at24 buf pos off count s Hf ltac:(lia) Hb (Hm off))
        as (s1 & E & M1 & B1).
      rewrite E. change (1 <=? 0) with false. cbv iota.
      rewrite u64_small by lia.
      destruct (IH (store buf pos (Eeprom16.mem (dev s) off))
                   (pos + Z.to_nat 1)%nat (off + 1) (count - 1) (retval + 1)
                   s1)
        as (buf' & s' & E' & Hl' & Hlow & Hhigh & M');
        try lia; try assumption.
      { intros x. rewrite M1. apply Hm. }
      { rewrite store_length. lia. }
      exists buf', s'.
      replace (retval + count) with (retval + 1 + (count - 1)) by ring.
      split; [exact E'|]. split; [now rewrite Hl', store_length|].
      split; [|split].
      * intros i Hi. rewrite Hlow by lia. apply store_other. lia.
      * intros j Hj. destruct (Z.eq_dec j 0) as [->|Hj0].
        -- rewrite Nat.add_0_r, Z.add_0_r. rewrite Hlow by lia.
           apply store_same. lia.
        -- replace (pos + Z.to_nat j)%nat
             with (pos + Z.to_nat 1 + Z.to_nat (j - 1))%nat by lia.
           rewrite Hhigh by lia. rewrite M1. f_equal. f_equal. lia.
      * congruence.
Qed.

(** On a part with a 16-bit address pointer that is not in a write
    cycle, a range read inside the first 64 KiB returns [count] and the
    bytes stored at [off], [off + 1], ..., and leaves the memory as it
    was. *)
Theorem at24_read_eeprom16 (io_limit write_timeout : Z)
    (msecs_to_jiffies : Z -> Z) (at24 : at24_data) (off count : Z)
    (s : Sys Eeprom16.state) :
  has_flag (chip at24) AT24_FLAG_ADDR16 = true ->
  0 <= off -> 0 < count -> off + count <= 65536 ->
  Eeprom16.busy (jiffies s) (dev s) = false ->
  (forall x, 0 <= Eeprom16.mem (dev s) x < 256) ->
  exists buf s',
    at24_read Eeprom16.bus io_limit write_timeout msecs_to_jiffies at24 off
      count s = Some ((count, buf), s') /\
    List.length buf = Z.to_nat count /\
    (forall i, 0 <= i < count ->
               nth_error buf (Z.to_nat i)
               = Some (Eeprom16.mem (dev s) (off + i))) /\
    Eeprom16.mem (dev s') = Eeprom16.mem (dev s).
Proof.
  intros Hf Ho Hc Hoc Hb Hm. rewrite at24_read_unfold by lia.
  destruct (eeprom16_read_loop io_limit write_timeout msecs_to_jiffies
              (Z.to_nat count) at24 (repeat 0 (Z.to_nat count)) 0 off count 0
              (mk_sys (jiffies s) (dev s) true (EvLock :: log s)) Hf Ho Hoc
              ltac:(lia) Hb Hm)
    as (buf & s1 & E & Hl & _ & Hhigh & M).
  { rewrite repeat_length. lia. }
  rewrite E. exists buf, (unlocked s1). split; [reflexivity|].
  rewrite repeat_length in Hl. split; [exact Hl|].
  split; [|exact M]. intros i Hi. apply (Hhigh i Hi).
Qed.

(** Three bytes at offset 16 of the erased 24c128. *)
Lemma at24_read_eeprom16_witness :
  exists buf s',
    at24_read Eeprom16.bus 128 25 msecs_to_jiffies_hz1000 at24_24c128 16 3
      Eeprom16.erased = Some ((3, buf), s') /\
    List.length buf = Z.to_nat 3 /\
    (forall i, 0 <= i < 3 ->
               nth_error buf (Z.to_nat i)
               = Some (Eeprom16.mem (dev Eeprom16.erased) (16 + i))) /\
    Eeprom16.mem (dev s') = Eeprom16.mem (dev Eeprom16.erased).
Proof.
  apply (at24_read_eeprom16 128 25 msecs_to_jiffies_hz1000 at24_24c128 16 3
           Eeprom16.erased).
  - reflexivity.
  - lia.
  - lia.
  - lia.
  - reflexivity.
  - intros x. cbn. lia.
Defined.

(** ** The page clamp *)

Section PageClamp.

Context {D : Type}.
Variable bus : Bus D.
Variables write_timeout : Z.
Variable msecs_to_jiffies : Z -> Z.

(** A write that gives up has seen every one of its transactions fail. *)
Lemma eeprom_write_retry_all_failed fuel cl offset count timeout b s s' :
  0 <= count < 2 ^ 63 ->
  eeprom_write_retry bus fuel cl offset count timeout b s
  = Some (- ETIMEDOUT, s') ->
  exists evs, log s' = evs ++ log s /\ forallb is_failed_write evs = true.
Proof.
  intros Hc. revert s. induction fuel as [|fuel IH]; intros s E; [discriminate|].
  rewrite eeprom_write_retry_turn in E. cbv zeta in E.
  set (x := bus_write_word_data bus _ _ _ _ _) in E.
  destruct (Z.eqb_spec (s32 (x_status x)) 0) as [Hz|Hnz].
  - rewrite u64_small, Z.eqb_refl in E by lia.
    injection E as E _. unfold ETIMEDOUT in E. lia.
  - destruct (u64 (s32 (x_status x)) =? count).
    + injection E as E _. unfold ETIMEDOUT in E. lia.
    + assert (F : negb (s32 (x_status x) =? 0) = true)
        by (destruct (Z.eqb_spec (s32 (x_status x)) 0); [contradiction|easy]).
      destruct (time_before (jiffies s) timeout).
      * destruct (IH _ E) as (evs & L & Fe). cbn [log] in L.
        eexists (evs ++ [_; _]). rewrite <- app_assoc.
        split; [exact L|]. rewrite forallb_app, Fe. cbn. now rewrite F.
      * injection E as <-. eexists [_; _]. cbn [log app].
        split; [reflexivity|]. cbn. now rewrite F.
Qed.

(** C4.  On a well-formed instance, for a single write of [count] bytes
    at [offset], let [o] be the translated offset,
    [next_page = roundup(o + 1, page_size)] and [accepted] be
    [min(count, write_max)], cut down to [next_page - o] when
    [o + min(count, write_max) > next_page].  Then [next_page] is the
    first multiple of the page size above [o]; [accepted] stays within
    the page that holds [o] and, for a request that reaches past the
    boundary, ends exactly on it; and [at24_eeprom_write] returns
    [accepted] or [-ETIMEDOUT].  It returns [accepted], after one
    transaction and no sleep, when its first write-word transaction is
    acknowledged, hence always on a bus that acknowledges every
    write-word; it returns [-ETIMEDOUT] only when every transaction it
    made failed and the deadline has passed. *)
Theorem at24_eeprom_write_page_clamp (at24 : at24_data) (buf : list Z)
    (pos : nat) (offset count : Z) (s : Sys D) :
  at24_wf at24 -> 0 <= count < 2 ^ 64 ->
  let cl := fst (at24_translate_offset (chip at24) offset) in
  let o := snd (at24_translate_offset (chip at24) offset) in
  let page := page_size (chip at24) in
  let c1 := Z.min count (write_max at24) in
  let next_page := roundup (u32 (o + 1)) page in
  let accepted := if o + c1 >? next_page then next_page - o else c1 in
  let hi := Z.land (Z.shiftr o 8) 255 in
  let word := u16 (Z.lor (Z.land o 255) (s8 (nth pos buf 0))) in
  (next_page mod page = 0 /\ o < next_page <= o + page) /\
  (0 <= accepted /\ o + accepted <= next_page /\
   (o + c1 > next_page -> o + accepted = next_page)) /\
  exists r s',
    at24_eeprom_write bus write_timeout msecs_to_jiffies at24 buf pos offset
      count s = Some (r, s') /\
    (r = accepted \/ r = - ETIMEDOUT) /\
    (s32 (x_status (bus_write_word_data bus (jiffies s) cl hi word (dev s)))
     = 0 ->
     r = accepted /\ log s' = EvWriteWordData cl hi word 0 :: log s) /\
    (write_responsive bus -> r = accepted) /\
    (r = - ETIMEDOUT ->
     jiffies s + msecs_to_jiffies write_timeout < jiffies s' /\
     exists evs, log s' = evs ++ log s /\ forallb is_failed_write evs = true).
Proof.
  intros W Hc. cbv zeta.
  pose proof (in_chip_offset_range (chip at24) offset) as Ho.
  pose proof (at24_write_count_eq at24
                (snd (at24_translate_offset (chip at24) offset)) count W Ho Hc)
    as Ec.
  pose proof (at24_write_count_range at24
                (snd (at24_translate_offset (chip at24) offset)) count W Ho Hc)
    as [Rc Rw].
  assert (Hm32 : write_max at24 < 2 ^ 32) by (destruct W as (_ & _ & Hw & _); lia).
  cbv zeta in Ec. unfold at24_eeprom_write.
  destruct (at24_translate_offset (chip at24) offset) as [cl o].
  cbn [fst snd] in *.
  assert (Hp : 0 < page_size (chip at24) < 2 ^ 16).
  { destruct W as ((_ & Hps & _) & Hp & _). lia. }
  rewrite roundup_next_page by assumption.
  pose proof (next_page_boundary_spec o (page_size (chip at24))
                ltac:(lia) ltac:(lia)) as [M B].
  assert (Hwm : 0 <= Z.min count (write_max at24))
    by (destruct W as (_ & _ & Hwm & _); lia).
  rewrite <- Ec.
  split; [split; assumption|].
  split.
  { rewrite Ec.
    destruct (Z.gtb_spec (o + Z.min count (write_max at24))
                (next_page_boundary o (page_size (chip at24)))); lia. }
  unfold bind, get_jiffies.
  destruct (retry_fuel_enough write_timeout msecs_to_jiffies (jiffies s))
    as [F T].
  destruct (eeprom_write_retry_result bus
              (retry_fuel write_timeout msecs_to_jiffies) cl o
              (at24_write_count at24 o count)
              (jiffies s + msecs_to_jiffies write_timeout)
              (nth pos buf 0) s ltac:(lia) F T) as (r & s' & E & R & _).
  exists r, s'. split; [exact E|]. split; [exact R|].
  assert (A : forall st0,
            s32 (x_status (bus_write_word_data bus (jiffies s) cl
                             (Z.land (Z.shiftr o 8) 255)
                             (u16 (Z.lor (Z.land o 255) (s8 (nth pos buf 0))))
                             (dev s))) = st0 ->
            st0 = 0 ->
            r = at24_write_count at24 o count /\
            log s' = EvWriteWordData cl (Z.land (Z.shiftr o 8) 255)
                       (u16 (Z.lor (Z.land o 255) (s8 (nth pos buf 0)))) st0
                     :: log s).
  { intros st0 H0 Hz. unfold retry_fuel in E.
    rewrite eeprom_write_retry_turn in E. cbv zeta in E.
    rewrite Hz in H0 |- *. rewrite H0 in E.
    change (0 =? 0) with true in E. cbv iota in E.
    rewrite u64_small, Z.eqb_refl in E by lia.
    injection E as <- <-. split; reflexivity. }
  split; [|split].
  - intros H0. exact (A 0 H0 eq_refl).
  - intros Hr. exact (proj1 (A 0 (Hr _ _ _ _ _) eq_refl)).
  - intros ->. split.
    + eapply eeprom_write_retry_deadline; [|exact E|reflexivity]. lia.
    + eapply eeprom_write_retry_all_failed; [|exact E]. lia.
Qed.

End PageClamp.

(** A write of 10 bytes at offset 60 of a part with 64-byte pages, on a
    bus that acknowledges: 4 bytes accepted, one transaction. *)
Lemma at24_eeprom_write_page_clamp_witness :
  exists s',
    at24_eeprom_write Scripted.bus 25 msecs_to_jiffies_hz1000
      at24_24c128_paged [7] 0 60 10 (Scripted.start [0]) = Some (4, s') /\
    log s' = [EvWriteWordData 0 0 63 0].
Proof.
  pose proof (at24_eeprom_write_page_clamp Scripted.bus 25
                msecs_to_jiffies_hz1000 at24_24c128_paged [7] 0%nat 60 10
                (Scripted.start [0])) as T.
  cbv zeta in T.
  destruct T as (_ & _ & r & s' & E & _ & Acc & _).
  - decide_bounds.
  - lia.
  - destruct Acc as [Er El]; [reflexivity|].
    exists s'. rewrite E, Er. split; [reflexivity|exact El].
Defined.

(** ** The zero fill of the read buffer *)

Section ZeroFill.

Context {D : Type}.
Variable bus : Bus D.
Variables io_limit write_timeout : Z.
Variable msecs_to_jiffies : Z -> Z.

(** While a range read is under way the buffer has [count] bytes, it is
    all zero as long as no byte was moved, and the bytes not yet reached
    are zero. *)
Lemma read_moved_buffer at24 off count s0 moved buf s :
  0 < count < 2 ^ 64 ->
  read_moved bus io_limit write_timeout msecs_to_jiffies at24 off count s0
    moved buf s ->
  0 <= moved <= count /\
  List.length buf = Z.to_nat count /\
  (moved = 0 -> buf = repeat 0 (Z.to_nat count)) /\
  (forall i, moved <= i < count -> nth_error buf (Z.to_nat i) = Some 0).
Proof.
  intros Hc H.
  induction H as [|moved buf s status buf1 s1 H (Hm & Hl & _ & Hz) Hlt E Hpos].
  - split; [lia|]. split; [apply repeat_length|]. split; [reflexivity|].
    intros i Hi. apply repeat_zero_nth. lia.
  - destruct (at24_eeprom_read_result bus io_limit write_timeout
                msecs_to_jiffies at24 buf (Z.to_nat moved)
                (u32 (off + moved)) (count - moved) s)
      as (st & b & s' & E' & R & _).
    rewrite E in E'. injection E' as <- <- _.
    destruct R as [[-> [v ->]]|[-> _]]; [|discriminate].
    split; [lia|]. split; [now rewrite store_length|].
    split; [lia|].
    intros i Hi. rewrite store_other by lia. apply Hz. lia.
Qed.

(** C10.  A range read of a nonzero [count] starts from a buffer of
    [count] zero bytes.  While it is under way, with [moved] bytes moved
    by successful transfers, the bytes from [moved] on are zero.  When
    the next transfer fails, [at24_read] returns the failing status if
    [moved = 0] and [moved] otherwise, with the buffer as it stood, so
    bytes [moved] to [count - 1] (all of them after an error) are zero;
    when all [count] bytes were moved it returns [count].  It always
    returns, and the bytes of the returned buffer from the returned
    count on (from 0 on after an error) are zero. *)
Theorem at24_read_zero_tail (at24 : at24_data) (off count : Z) (s0 : Sys D) :
  0 < count < 2 ^ 64 ->
  (forall moved buf s,
     read_moved bus io_limit write_timeout msecs_to_jiffies at24 off count s0
       moved buf s ->
     0 <= moved <= count /\
     List.length buf = Z.to_nat count /\
     (moved = 0 -> buf = repeat 0 (Z.to_nat count)) /\
     (forall i, moved <= i < count -> nth_error buf (Z.to_nat i) = Some 0) /\
     (moved = count ->
      at24_read bus io_limit write_timeout msecs_to_jiffies at24 off count s0
      = Some ((count, buf), unlocked s)) /\
     (forall st buf1 s1,
        moved < count ->
        at24_eeprom_read bus io_limit write_timeout msecs_to_jiffies at24 buf
          (Z.to_nat moved) (u32 (off + moved)) (count - moved) s
          = Some ((st, buf1), s1) ->
        st <= 0 ->
        buf1 = buf /\
        at24_read bus io_limit write_timeout msecs_to_jiffies at24 off count s0
        = Some ((if moved =? 0 then st else moved, buf), unlocked s1))) /\
  (exists r buf s',
     at24_read bus io_limit write_timeout msecs_to_jiffies at24 off count s0
     = Some ((r, buf), s') /\
     List.length buf = Z.to_nat count /\
     (r = - ETIMEDOUT \/ 0 < r <= count) /\
     (forall i, Z.max 0 r <= i < count ->
                nth_error buf (Z.to_nat i) = Some 0)).
Proof.
  intros Hc. split.
  - intros moved buf s H.
    destruct (read_moved_buffer at24 off count s0 moved buf s Hc H)
      as (Hm & Hl & H0 & Hz).
    destruct (read_moved_loop bus io_limit write_timeout msecs_to_jiffies
                at24 off count s0 moved buf s Hc H) as [_ L].
    split; [exact Hm|]. split; [exact Hl|]. split; [exact H0|].
    split; [exact Hz|]. split.
    + intros ->. rewrite at24_read_unfold by lia. rewrite L.
      rewrite Z.sub_diag. reflexivity.
    + intros st buf1 s1 Hlt E Hst.
      assert (buf1 = buf).
      { destruct (at24_eeprom_read_result bus io_limit write_timeout
                    msecs_to_jiffies at24 buf (Z.to_nat moved)
                    (u32 (off + moved)) (count - moved) s)
          as (st' & b & s' & E' & R & _).
        rewrite E in E'. injection E' as <- <- _.
        destruct R as [[-> _]|[_ ->]]; [lia|reflexivity]. }
      subst buf1. split; [reflexivity|].
      rewrite at24_read_unfold by lia. rewrite L.
      replace (Z.to_nat (count - moved))
        with (S (Z.to_nat (count - moved - 1))) by lia.
      rewrite at24_read_loop_turn by lia. rewrite E.
      destruct (Z.leb_spec st 0); [reflexivity|lia].
  - rewrite at24_read_unfold by lia.
    destruct (at24_read_loop_result bus io_limit write_timeout
                msecs_to_jiffies (Z.to_nat count) at24
                (repeat 0 (Z.to_nat count)) 0 off count 0
                (mk_sys (jiffies s0) (dev s0) true (EvLock :: log s0))
                ltac:(lia) ltac:(lia) ltac:(lia))
      as (r & buf & s1 & k & E & Hk & Hr & Hl & Hi & _).
    rewrite E. exists r, buf, (unlocked s1). split; [reflexivity|].
    rewrite repeat_length in Hl. split; [exact Hl|].
    assert (R : (r = - ETIMEDOUT /\ k = 0) \/ (r = k /\ 0 < k)).
    { rewrite Hr. cbn [Z.add].
      destruct (Z.ltb_spec k count); destruct (Z.eqb_spec k 0); cbn; lia. }
    split; [destruct R as [[-> _]|[-> ?]]; [now left|right; lia]|].
    intros i Hi'. rewrite Hi.
    + apply repeat_zero_nth. lia.
    + destruct R as [[-> ->]|[-> ?]]; cbn in *; lia.
Qed.

End ZeroFill.

(** A read of three bytes on a bus that stops acknowledging after the
    first: it returns 1 with the buffer [65; 0; 0]. *)
Lemma at24_read_zero_tail_witness :
  exists s1,
    at24_read Scripted.bus 128 3 msecs_to_jiffies_hz1000 at24_24c128 16 3
      (Scripted.start [0; 65])
    = Some ((if 1 =? 0 then - ETIMEDOUT else 1, [65; 0; 0]), unlocked s1) /\
    (forall i, 1 <= i < 3 -> nth_error [65; 0; 0] (Z.to_nat i) = Some 0).
Proof.
  assert (M : read_moved Scripted.bus 128 3 msecs_to_jiffies_hz1000
                at24_24c128 16 3 (Scripted.start [0; 65]) (0 + 1) [65; 0; 0]
                (mk_sys 1000 [] true
                   [EvReadByte 0 65; EvWriteByteData 0 0 16 0; EvLock])).
  { eapply read_moved_more.
    - apply read_moved_none.
    - lia.
    - vm_compute. reflexivity.
    - lia. }
  destruct (proj1 (at24_read_zero_tail Scripted.bus 128 3
                     msecs_to_jiffies_hz1000 at24_24c128 16 3
                     (Scripted.start [0; 65]) ltac:(lia)) _ _ _ M)
    as (_ & _ & _ & Tail & _ & Fail).
  eexists. split; [|exact Tail].
  eapply (fun st b s1 h1 h2 h3 => proj2 (Fail st b s1 h1 h2 h3)).
  - lia.
  - vm_compute. reflexivity.
  - vm_compute. discriminate.
Defined.

(** ** What goes over the wire *)

Section Wire.

Context {D : Type}.
Variable bus : Bus D.
Variables io_limit write_timeout : Z.
Variable msecs_to_jiffies : Z -> Z.

Lemma is_read_run_nonempty cl hi lo success h :
  is_read_run cl hi lo success h = true -> h <> [].
Proof. destruct h; [discriminate|]. intros _. discriminate. Qed.

Lemma is_write_run_nonempty cl hi word count success h :
  is_write_run cl hi word count success h = true -> h <> [].
Proof. destruct h; [discriminate|]. intros _. discriminate. Qed.

(** The history of the read loop, oldest event first. *)
Lemma eeprom_read_retry_run fuel cl offset timeout buf pos s st buf' s' :
  eeprom_read_retry bus fuel cl offset 1 timeout buf pos s
  = Some ((st, buf'), s') ->
  exists h,
    log s' = rev h ++ log s /\
    is_read_run cl (Z.land (Z.shiftr offset 8) 255) (Z.land offset 255)
                (st =? 1) h = true.
Proof.
  revert buf s. induction fuel as [|fuel IH]; intros buf s E; [discriminate|].
  rewrite eeprom_read_retry_turn in E. cbv zeta in E.
  set (x1 := bus_write_byte_data bus _ _ _ _ _) in E.
  set (x2 := bus_read_byte bus _ _ _) in E.
  pose proof (s32_range (x_status x2)) as R.
  destruct (Z.leb_spec 0 (s32 (x_status x2))) as [Hs|Hs].
  - change (u64 1 =? 1) with true in E. cbv iota in E.
    injection E as <- _ <-.
    eexists [_; _]. cbn [log rev app]. split; [reflexivity|].
    cbn [is_read_run]. rewrite !Z.eqb_refl. cbn [andb].
    now apply Z.leb_le.
  - rewrite u64_status_ne in E by lia.
    assert (Hlt : (s32 (x_status x2) <? 0) = true) by now apply Z.ltb_lt.
    destruct (time_before (jiffies s) timeout).
    + destruct (IH _ _ E) as (h & L & F). cbn [log] in L.
      pose proof (is_read_run_nonempty _ _ _ _ _ F) as Hne.
      eexists (_ :: _ :: _ :: h). cbn [rev]. rewrite <- !app_assoc.
      cbn [app]. split; [exact L|].
      cbn [is_read_run]. rewrite !Z.eqb_refl, Hlt. cbn [andb].
      destruct h; [contradiction|exact F].
    + injection E as <- _ <-.
      eexists [_; _; _]. cbn [log rev app]. split; [reflexivity|].
      cbn [is_read_run]. rewrite !Z.eqb_refl, Hlt. reflexivity.
Qed.

(** The history of the write loop, oldest event first. *)
Lemma eeprom_write_retry_run fuel cl offset count timeout b s r s' :
  0 <= count < 2 ^ 63 ->
  eeprom_write_retry bus fuel cl offset count timeout b s = Some (r, s') ->
  exists h,
    log s' = rev h ++ log s /\
    is_write_run cl (Z.land (Z.shiftr offset 8) 255)
                 (u16 (Z.lor (Z.land offset 255) (s8 b))) count
                 (negb (r =? - ETIMEDOUT)) h = true.
Proof.
  intros Hc. revert s. induction fuel as [|fuel IH]; intros s E; [discriminate|].
  rewrite eeprom_write_retry_turn in E. cbv zeta in E.
  set (x := bus_write_word_data bus _ _ _ _ _) in E.
  assert (Hs : negb (count =? - ETIMEDOUT) = true).
  { destruct (Z.eqb_spec count (- ETIMEDOUT)) as [Hx|]; [|reflexivity].
    unfold ETIMEDOUT in Hx. lia. }
  destruct (Z.eqb_spec (s32 (x_status x)) 0) as [Hz|Hnz].
  - rewrite u64_small, Z.eqb_refl in E by lia.
    injection E as <- <-.
    eexists [_]. cbn [log rev app]. split; [reflexivity|].
    cbn [is_write_run]. rewrite !Z.eqb_refl, Hs, Hz. reflexivity.
  - assert (Hz : (s32 (x_status x) =? 0) = false) by now apply Z.eqb_neq.
    destruct (u64 (s32 (x_status x)) =? count) eqn:Hu.
    + injection E as <- <-.
      eexists [_]. cbn [log rev app]. split; [reflexivity|].
      cbn [is_write_run]. rewrite !Z.eqb_refl, Hs, Hz, Hu. reflexivity.
    + destruct (time_before (jiffies s) timeout).
      * destruct (IH _ E) as (h & L & F). cbn [log] in L.
        pose proof (is_write_run_nonempty _ _ _ _ _ _ F) as Hne.
        eexists (_ :: _ :: h). cbn [rev]. rewrite <- !app_assoc.
        cbn [app]. split; [exact L|].
        cbn [is_write_run]. rewrite !Z.eqb_refl, Hz, Hu. cbn [andb orb negb].
        destruct h; [contradiction|exact F].
      * injection E as <- <-.
        eexists [_; _]. cbn [log rev app]. split; [reflexivity|].
        cbn [is_write_run]. rewrite !Z.eqb_refl, Hz, Hu. reflexivity.
Qed.

Lemma lor_below_256 a b :
  0 <= a < 2 ^ 8 -> 0 <= b < 2 ^ 8 -> 0 <= Z.lor a b < 2 ^ 8.
Proof.
  intros Ha Hb.
  assert (E : Z.lor a b = Z.lor a b mod 2 ^ 8).
  { rewrite <- land_255, Z.land_lor_distr_l, !land_255.
    now rewrite !Z.mod_small by assumption. }
  rewrite E. apply Z.mod_pos_bound. lia.
Qed.

(** The transactions of a single read and of a single write at [offset],
    with [cl] the alias index and [o] the in-chip offset it translates
    to.  The history of a read is a sequence of turns, each a
    write-byte-data to client [cl] with command [o >> 8] and data
    [o & 0xff] (command 0 and data [o] for a chip without ADDR16)
    followed by a read-byte of client [cl]; after a turn whose read-byte
    failed comes a sleep of 1 ms, then the next turn or the return of
    [-ETIMEDOUT]; the read returns 1 exactly on a turn whose read-byte
    gave a byte, which is then the last event.  The history of a write on
    a well-formed instance is a sequence of turns of one write-word-data
    to client [cl] with command [o >> 8] and the word
    [(o & 0xff) | buf[0]], with a sleep of 1 ms after each turn that was
    not accepted, and it returns a count exactly when its last
    transaction was accepted.  For a data byte below 0x80 the word is
    below 0x100, that is, its high byte is zero. *)
Theorem at24_wire_format (at24 : at24_data) (buf : list Z) (pos : nat)
    (offset count : Z) (s : Sys D) :
  let cl := fst (at24_translate_offset (chip at24) offset) in
  let o := snd (at24_translate_offset (chip at24) offset) in
  let hi := Z.shiftr o 8 in
  let lo := Z.land o 255 in
  let word := Z.lor lo (s8 (nth pos buf 0)) in
  (hi * 256 + lo = o /\ 0 <= hi < 256 /\
   (has_flag (chip at24) AT24_FLAG_ADDR16 = false -> hi = 0 /\ lo = o)) /\
  (forall st buf' s',
     at24_eeprom_read bus io_limit write_timeout msecs_to_jiffies at24 buf pos
       offset count s = Some ((st, buf'), s') ->
     exists h,
       log s' = rev h ++ log s /\
       is_read_run cl hi lo (st =? 1) h = true) /\
  (forall r s',
     at24_wf at24 -> 0 <= count < 2 ^ 64 ->
     at24_eeprom_write bus write_timeout msecs_to_jiffies at24 buf pos offset
       count s = Some (r, s') ->
     exists h,
       log s' = rev h ++ log s /\
       is_write_run cl hi (u16 word) (at24_write_count at24 o count)
                    (negb (r =? - ETIMEDOUT)) h = true) /\
  (0 <= nth pos buf 0 < 128 -> u16 word = word /\ 0 <= word < 256).
Proof.
  cbv zeta.
  pose proof (in_chip_offset_range (chip at24) offset) as Ho.
  destruct (at24_translate_offset (chip at24) offset) as [cl o] eqn:Et.
  cbn [fst snd] in *.
  assert (Hhi : Z.land (Z.shiftr o 8) 255 = Z.shiftr o 8).
  { rewrite land_255, shiftr_is_div by lia. apply Z.mod_small.
    split; [apply Z.div_pos; lia|]. apply Z.div_lt_upper_bound; lia. }
  split; [|split; [|split]].
  - rewrite land_255, shiftr_is_div by lia.
    pose proof (Z.div_mod o (2 ^ 8) ltac:(lia)) as Ed.
    split; [lia|]. split.
    + split; [apply Z.div_pos; lia|]. apply Z.div_lt_upper_bound; lia.
    + intros Hf. rewrite at24_translate_offset_eq in Et.
      unfold address_span in Et. rewrite Hf in Et. injection Et as _ <-.
      pose proof (Z.mod_pos_bound offset 256 ltac:(lia)) as B.
      split; [apply Z.div_small; lia|].
      change (2 ^ 8) with 256. rewrite Z.mod_mod by lia. reflexivity.
  - intros st buf' s'. unfold at24_eeprom_read. rewrite Et.
    unfold bind, get_jiffies. intros E.
    destruct (eeprom_read_retry_run _ _ _ _ _ _ _ _ _ _ E) as (h & L & F).
    exists h. split; [exact L|]. now rewrite Hhi in F.
  - intros r s' W Hc. unfold at24_eeprom_write. rewrite Et.
    unfold bind, get_jiffies. intros E.
    pose proof (at24_write_count_range at24 o count W Ho Hc) as [Rc Rw].
    assert (Hm32 : write_max at24 < 2 ^ 32)
      by (destruct W as (_ & _ & Hw & _); lia).
    assert (Hcnt : 0 <= at24_write_count at24 o count < 2 ^ 63) by lia.
    destruct (eeprom_write_retry_run _ _ _ _ _ _ _ _ _ Hcnt E)
      as (h & L & F).
    exists h. split; [exact L|]. now rewrite Hhi in F.
  - intros Hb.
    assert (Es : s8 (nth pos buf 0) = nth pos buf 0).
    { unfold s8. rewrite u8_small by lia. cbv zeta.
      destruct (Z.ltb_spec (nth pos buf 0) 128); [reflexivity|lia]. }
    rewrite Es.
    pose proof (Z.mod_pos_bound o (2 ^ 8) ltac:(lia)) as Bl.
    rewrite <- land_255 in Bl.
    pose proof (lor_below_256 (Z.land o 255) (nth pos buf 0) Bl ltac:(lia)).
    split; [apply u16_small; lia|assumption].
Qed.

End Wire.

(** A read and a write at offset 300 of a 24c04 (8-bit addresses) whose
    first attempt is not acknowledged: set-address write of the data byte
    44 to command 0 of the second client, read-byte, sleep, and again;
    write-word of [0x2C | 0x11], sleep, and again. *)
Lemma at24_wire_format_witness :
  let at24 := mk_at24 (mk_chip 512 1 0) 0 1 2 512 384 true [80; 81] in
  (exists s',
     at24_eeprom_read Scripted.bus 128 25 msecs_to_jiffies_hz1000 at24 [0] 0
       300 1 (Scripted.start [0; -6; 0; 65]) = Some ((1, [65]), s') /\
     log s' = rev [EvWriteByteData 1 0 44 0; EvReadByte 1 (-6); EvSleep 1;
                   EvWriteByteData 1 0 44 0; EvReadByte 1 65] /\
     exists h,
       log s' = rev h ++ log (Scripted.start [0; -6; 0; 65]) /\
       is_read_run 1 0 44 (1 =? 1) h = true) /\
  (exists s',
     at24_eeprom_write Scripted.bus 25 msecs_to_jiffies_hz1000 at24 [17] 0 300
       1 (Scripted.start [-6; 0]) = Some (1, s') /\
     log s' = rev [EvWriteWordData 1 0 61 (-6); EvSleep 1;
                   EvWriteWordData 1 0 61 0] /\
     exists h,
       log s' = rev h ++ log (Scripted.start [-6; 0]) /\
       is_write_run 1 0 61 1 (negb (1 =? - ETIMEDOUT)) h = true).
Proof.
  cbv zeta. split.
  - eexists. split; [vm_compute; reflexivity|]. split; [reflexivity|].
    eapply (proj1 (proj2 (at24_wire_format Scripted.bus 128 25
                            msecs_to_jiffies_hz1000
                            (mk_at24 (mk_chip 512 1 0) 0 1 2 512 384 true
                                     [80; 81])
                            [0] 0%nat 300 1 (Scripted.start [0; -6; 0; 65])))).
    vm_compute. reflexivity.
  - eexists. split; [vm_compute; reflexivity|]. split; [reflexivity|].
    eapply (proj1 (proj2 (proj2 (at24_wire_format Scripted.bus 128 25
                            msecs_to_jiffies_hz1000
                            (mk_at24 (mk_chip 512 1 0) 0 1 2 512 384 true
                                     [80; 81])
                            [17] 0%nat 300 1 (Scripted.start [-6; 0]))))).
    + decide_bounds.
    + lia.
    + vm_compute. reflexivity.
Defined.

(** ** The ways [at24_probe] fails *)

Lemma at24_new_dummies_none a base i n :
  at24_new_dummies a base i n = None ->
  exists j, 0 <= j < Z.of_nat n /\ addr_free a (base + (i + j)) = false.
Proof.
  revert i. induction n as [|n IH]; intros i E; [discriminate|].
  cbn [at24_new_dummies] in E.
  destruct (addr_free a (base + i)) eqn:F.
  - destruct (at24_new_dummies a base (i + 1) n) eqn:R; [discriminate|].
    destruct (IH _ R) as (j & Hj & Fj).
    exists (j + 1). split; [lia|].
    now replace (i + (j + 1)) with (i + 1 + j) by ring.
  - exists 0. split; [lia|]. now rewrite Z.add_0_r.
Qed.

Lemma at24_new_dummies_some a base i n l :
  at24_new_dummies a base i n = Some l ->
  forall j, 0 <= j < Z.of_nat n -> addr_free a (base + (i + j)) = true.
Proof.
  revert i l. induction n as [|n IH]; intros i l E j Hj; [lia|].
  cbn [at24_new_dummies] in E.
  destruct (addr_free a (base + i)) eqn:F; [|discriminate].
  destruct (at24_new_dummies a base (i + 1) n) eqn:R; [|discriminate].
  destruct (Z.eq_dec j 0) as [->|Hnz]; [now rewrite Z.add_0_r|].
  replace (i + j) with (i + 1 + (j - 1)) by ring.
  apply (IH _ _ R). lia.
Qed.

Lemma at24_use_smbus_spec a :
  at24_use_smbus a
  = (if adapter_can_read a
     then inr (if func_i2c a then 0 else I2C_SMBUS_BYTE_DATA)
     else inl (- EPFNOSUPPORT)).
Proof.
  unfold at24_use_smbus, adapter_can_read.
  destruct (func_i2c a), (func_smbus_read_i2c_block a),
    (func_smbus_read_word_data a), (func_smbus_read_byte_data a);
    reflexivity.
Qed.

(** The outcome of [at24_probe] is decided by the first check that
    fails, in this order: [-ENODEV] for a zero magic without platform
    data (the only way the chip description is not resolved); [-EINVAL]
    for a page size of zero; [-EPFNOSUPPORT] for an adapter with none of
    the four read capabilities; [-ENOMEM] when the instance cannot be
    allocated, or, for a writable instance, its write buffer;
    [-EADDRINUSE] when one of the addresses
    [addr + 1 .. addr + num_addresses - 1] cannot be reserved; the error
    of [sysfs_create_bin_file] when that is not zero; and when no check
    fails the probe succeeds with the resolved chip.  The page size from
    a "pagesize" property is narrowed to 16 bits, so a property value
    that is a multiple of 65536 is a page size of zero. *)
Theorem at24_probe_errors (io_limit : Z) (cl : i2c_client) (magic : Z) :
  let probe := at24_probe io_limit cl magic in
  (forall e,
     at24_resolve_chip (platform_data cl) (of_node cl) magic = inl e ->
     platform_data cl = None /\ magic = 0 /\ probe = inl (- ENODEV)) /\
  (platform_data cl = None -> magic = 0 -> probe = inl (- ENODEV)) /\
  (forall c,
     at24_resolve_chip (platform_data cl) (of_node cl) magic = inr c ->
     let n := at24_num_addresses c in
     let can_write := negb (has_flag c AT24_FLAG_READONLY)
                      && adapter_can_write (adapter cl) in
     (page_size c = 0 -> probe = inl (- EINVAL)) /\
     (page_size c <> 0 ->
      (adapter_can_read (adapter cl) = false ->
       probe = inl (- EPFNOSUPPORT)) /\
      (adapter_can_read (adapter cl) = true ->
       (kzalloc_at24 cl = false -> probe = inl (- ENOMEM)) /\
       (kzalloc_at24 cl = true ->
        (can_write = true -> kzalloc_writebuf cl = false ->
         probe = inl (- ENOMEM)) /\
        (can_write = false \/ kzalloc_writebuf cl = true ->
         ((exists i, 1 <= i < n /\
                     addr_free (adapter cl) (addr cl + i) = false) ->
          probe = inl (- EADDRINUSE)) /\
         ((forall i, 1 <= i < n ->
                     addr_free (adapter cl) (addr cl + i) = true) ->
          (sysfs_create_err cl <> 0 -> probe = inl (sysfs_create_err cl)) /\
          (sysfs_create_err cl = 0 ->
           exists d, probe = inr d /\ chip d = c
                     /\ bin_write d = can_write))))))) /\
  (forall ro val,
     platform_data cl = None -> magic <> 0 ->
     of_node cl = Some (mk_node ro (Some val)) -> val mod 2 ^ 16 = 0 ->
     probe = inl (- EINVAL)).
Proof.
  cbv zeta. split; [|split; [|split]].
  - intros e R. unfold at24_probe. rewrite R.
    unfold at24_resolve_chip in R.
    destruct (platform_data cl); [discriminate|].
    destruct (Z.eqb_spec magic 0); [|discriminate].
    injection R as <-. auto.
  - intros Hpd ->. unfold at24_probe, at24_resolve_chip. now rewrite Hpd.
  - intros c R. unfold at24_probe. rewrite R. split.
    + intros ->. reflexivity.
    + intros Hps. destruct (Z.eqb_spec (page_size c) 0); [contradiction|].
      rewrite at24_use_smbus_spec. split; [now intros ->|].
      intros ->. split; [now intros ->|].
      intros ->. cbn [negb].
      assert (Ecw : negb (has_flag c AT24_FLAG_READONLY)
                    && (((if func_i2c (adapter cl) then 0
                          else I2C_SMBUS_BYTE_DATA) =? 0)
                        || func_smbus_write_i2c_block (adapter cl))
                    = negb (has_flag c AT24_FLAG_READONLY)
                      && adapter_can_write (adapter cl)).
      { unfold adapter_can_write. now destruct (func_i2c (adapter cl)). }
      rewrite !Ecw.
      split; [intros -> ->; reflexivity|].
      intros Hal.
      assert (Ea : negb (has_flag c AT24_FLAG_READONLY)
                   && adapter_can_write (adapter cl)
                   && negb (kzalloc_writebuf cl) = false).
      { destruct Hal as [-> | ->]; [reflexivity|]. apply andb_false_r. }
      rewrite Ea. split.
      * intros (i & Hi & Fi).
        destruct (at24_new_dummies _ _ _ _) as [l|] eqn:Dm; [|reflexivity].
        assert (Hf := at24_new_dummies_some _ _ _ _ _ Dm (i - 1)).
        replace (1 + (i - 1)) with i in Hf by ring.
        rewrite Hf in Fi by lia. discriminate.
      * intros Hfree.
        destruct (at24_new_dummies _ _ _ _) as [l|] eqn:Dm.
        -- split.
           ++ intros Hs. destruct (Z.eqb_spec (sysfs_create_err cl) 0);
                [contradiction|reflexivity].
           ++ intros ->. eexists. split; [reflexivity|]. split; reflexivity.
        -- destruct (at24_new_dummies_none _ _ _ _ Dm) as (j & Hj & Fj).
           rewrite Hfree in Fj by lia. discriminate.
  - intros ro val Hpd Hm Hn Hv. unfold at24_probe, at24_resolve_chip.
    rewrite Hpd, Hn.
    destruct (Z.eqb_spec magic 0); [contradiction|].
    unfold at24_get_ofdata. cbn [of_read_only of_pagesize].
    destruct ro; cbn [page_size byte_len flags]; unfold u16; rewrite Hv;
      reflexivity.
Qed.

(** The 24c128 of the table when the write buffer cannot be allocated,
    and with a "pagesize" of 65536 in its node. *)
Lemma at24_probe_errors_witness :
  at24_probe 128 (mk_i2c_client None None full_i2c 86 0 true false) 12302
  = inl (- ENOMEM) /\
  at24_probe 128
    (mk_client None (Some (mk_node false (Some 65536))) full_i2c 86 0) 12302
  = inl (- EINVAL).
Proof.
  split.
  - pose proof (at24_probe_errors 128
                  (mk_i2c_client None None full_i2c 86 0 true false) 12302)
      as T.
    cbv zeta in T. destruct T as (_ & _ & T & _).
    destruct (T (mk_chip 16384 1 128) eq_refl) as [_ T1].
    destruct (T1 ltac:(discriminate)) as [_ T2].
    destruct (T2 eq_refl) as [_ T3].
    destruct (T3 eq_refl) as [T4 _].
    exact (T4 eq_refl eq_refl).
  - pose proof (at24_probe_errors 128
                  (mk_client None (Some (mk_node false (Some 65536)))
                             full_i2c 86 0) 12302) as T.
    cbv zeta in T. destruct T as (_ & _ & _ & T).
    apply (T false 65536); try reflexivity. discriminate.
Defined.
